(** * The Plyr façade (src/plyr1.js): a shallow embedding

    The class [Plyr] of src/plyr1.js is a façade over a media element (the
    bound Provider) and a number of collaborators imported from sibling
    modules (ui, media, captions, Listeners, Ads, ...).  Only the façade is
    part of the sources; every collaborator is modelled by the calls the
    façade makes to it, recorded in a trace, and by an oracle of the
    environment that decides whether such a call throws.  What a
    collaborator does behind such a call is outside the embedding: in
    particular collaborators are taken not to assign the fields of the
    instance that the class itself assigns.

    The embedding is a state-and-exception monad over a [World] holding the
    document (attributes and parents of elements, the Provider surface of
    media elements), the instance under construction ([this]), the trace of
    effects and the queue of promise jobs. *)

From stdpp Require Import gmap strings list fin_maps pretty.
#[local] Set Warnings "-register-all".

(** ** JSON values and configuration objects *)

(** Values that [JSON.parse] produces and that configuration objects hold.
    Numbers are restricted to integers; an object maps its keys to values
    (the order of the keys is not observed by the façade). *)
Inductive json :=
| JNull
| JBool (b : bool)
| JNum (z : Z)
| JStr (s : string)
| JArr (l : list json)
| JObj (m : gmap string json).


(** The mapping held at an optional slot, [{}] when the slot holds none. *)
Definition as_obj (o : option json) : gmap string json :=
  match o with Some (JObj m) => m | _ => ∅ end.

(** JavaScript truthiness, for [options || {}]. *)
Definition truthy (j : json) : bool :=
  match j with
  | JNull => false
  | JBool b => b
  | JNum z => negb (z =? 0)%Z
  | JStr s => negb (String.eqb s "")
  | JArr _ | JObj _ => true
  end.

(** Modelled from the spec: [extend] of ./utils/objects is imported by
    src/plyr1.js but is not among the sources.  Section 4.1 of the spec
    describes it: sources are merged from left to right, a later source wins
    per leaf key, nested mappings are merged recursively instead of being
    replaced as a whole, and a source that is not a mapping contributes
    nothing.  [extend_into source target] merges one source into a target. *)
Fixpoint extend_into (source : json) {struct source}
  : gmap string json -> gmap string json :=
  match source with
  | JObj ms =>
      let fs : gmap string (option json -> json) :=
        (fun v ot =>
           match v with
           | JObj _ => JObj (extend_into v (as_obj ot))
           | _ => v
           end) <$> ms in
      fun target =>
        merge (fun ot og =>
                 match og with
                 | None => ot
                 | Some g => Some (g ot)
                 end) target fs
  | _ => fun target => target
  end.

(** Modelled from the spec: [extend(target, ...sources)], see [extend_into]. *)
Definition extend (target : gmap string json) (sources : list json)
  : gmap string json :=
  foldl (fun t s => extend_into s t) target sources.

(** *** Leaves of a configuration, addressed by a path of keys *)





(** ** The document and the Provider surface *)

(** Elements are identified by a number. *)
Definition node := nat.

(** What the [source] property of a media element holds: nothing, or an
    object that may or may not have a callable [change]. *)
Inductive srcval :=
| SrcMissing
| SrcObject (change_fn : bool).

(** An element of the document: its attributes, its parent element, and,
    for a media element, the part of the Provider surface the façade
    inspects ([is.function(media.play)], [media.playing], ...). *)
Record Element := {
  attrs : gmap string string;
  parentElement : option node;
  has_play : bool;
  has_pause : bool;
  prop_playing : bool;
  prop_source : srcval;
}.

Definition blank_element : Element :=
  {| attrs := ∅; parentElement := None; has_play := false;
     has_pause := false; prop_playing := false; prop_source := SrcMissing |}.

#[global] Instance Element_inhabited : Inhabited Element :=
  populate blank_element.

Definition with_attrs (f : gmap string string -> gmap string string)
  (el : Element) : Element :=
  {| attrs := f (attrs el); parentElement := parentElement el;
     has_play := has_play el; has_pause := has_pause el;
     prop_playing := prop_playing el; prop_source := prop_source el |}.

(** Primitive values passed to [setAttribute], which stores their string
    conversion: [null] becomes ["null"], [-1] becomes ["-1"]. *)
Inductive prim :=
| PUndefined
| PNull
| PStr (s : string)
| PInt (z : Z).

Definition to_string (v : prim) : string :=
  match v with
  | PUndefined => "undefined"
  | PNull => "null"
  | PStr s => s
  | PInt z => pretty z
  end.

(** ** Collaborators and the trace of effects *)

(** The classes the façade instantiates with [new K(this)]. *)
Inductive subsystem :=
| Listeners | Source | Fullscreen | Captions | Controls | Ads
| PreviewThumbnails | Storage | Console.

(** Values handed to collaborators as arguments. *)
Inductive jsval :=
| VUndefined
| VJson (j : json)
| VObject (k : subsystem).

(** What [this.media] holds after target resolution: nothing, an element,
    or a collection object that was neither a NodeList nor a jQuery object
    recognised through [window.jQuery] (an array, an HTMLCollection). *)
Inductive mediaval :=
| MUndefined
| MElement (e : node)
| MCollection.

(** Receivers of method calls. *)
Inductive object :=
| OElement (e : node)        (* a DOM element; the media element is the Provider *)
| OSourceOf (e : node)       (* the value of the [source] property of element e *)
| OSubsystem (k : subsystem) (* an object built by [new K(this)] *).

(** Every effect of the façade, in program order. *)
Inductive event :=
| EvCreateElement (e : node)
| EvSetAttribute (e : node) (name value : string)
| EvRemoveAttribute (e : node) (name : string)
| EvClassListAdd (e : node) (token : option json) (* the DOM may reject it *)
| EvReady (b : bool)                             (* this.ready = b *)
| EvNew (k : subsystem)                          (* new K(this) *)
| EvMethod (o : object) (method : string) (args : list jsval)
| EvUiSetup                                      (* ui.setup.call(this) *)
| EvUiReset                                      (* ui.reset.call(this) *)
| EvMediaSetup                                   (* media.setup.call(this) *)
| EvUnbindListeners                              (* unbindListeners.call(this) *)
| EvWrap (m : mediaval) (c : node)               (* wrap(media, container) *)
| EvTriggerEvent (target : mediaval) (type : string)
| EvCaptionsSet (language : jsval)               (* captions.set.call(this, l) *)
| EvCallback (cb : nat)                          (* the destroy callback runs *).

Inductive exn :=
| TypeError
| SyntaxError
| Thrown (ev : event)   (* raised inside a collaborator *).

(** A capability block: the passive placeholder the constructor installs
    ([{ enabled: false, active: false }], which has no methods), or the
    object [setup] replaces it with. *)
Inductive block :=
| Placeholder
| Built (k : subsystem) (is_enabled is_active : bool).

Definition enabled (b : block) : bool :=
  match b with Placeholder => false | Built _ en _ => en end.

Definition active (b : block) : bool :=
  match b with Placeholder => false | Built _ _ ac => ac end.

(** The fields of the instance that the façade reads back.  The fields it
    only ever writes ([timers], [attributes], [listeners], [controls],
    [previewThumbnails], [storage], [console] and the element cache apart
    from its container) are left out: the objects stored there are known
    from the [EvNew] events of the trace. *)
Record Plyr := {
  ready : bool;
  loading : bool;
  failed : bool;
  touch : bool;
  media : mediaval;
  config : gmap string json;
  container : option node;      (* this.elements.container *)
  captions : block;
  fullscreen : block;
  pip : block;
  airplay : block;
  ads : block;
}.

Definition set_ready (v : bool) (p : Plyr) : Plyr :=
  {| ready := v; loading := loading p; failed := failed p; touch := touch p;
     media := media p; config := config p; container := container p;
     captions := captions p; fullscreen := fullscreen p; pip := pip p;
     airplay := airplay p; ads := ads p |}.

Definition set_loading (v : bool) (p : Plyr) : Plyr :=
  {| ready := ready p; loading := v; failed := failed p; touch := touch p;
     media := media p; config := config p; container := container p;
     captions := captions p; fullscreen := fullscreen p; pip := pip p;
     airplay := airplay p; ads := ads p |}.

Definition set_failed (v : bool) (p : Plyr) : Plyr :=
  {| ready := ready p; loading := loading p; failed := v; touch := touch p;
     media := media p; config := config p; container := container p;
     captions := captions p; fullscreen := fullscreen p; pip := pip p;
     airplay := airplay p; ads := ads p |}.

Definition set_touch (v : bool) (p : Plyr) : Plyr :=
  {| ready := ready p; loading := loading p; failed := failed p; touch := v;
     media := media p; config := config p; container := container p;
     captions := captions p; fullscreen := fullscreen p; pip := pip p;
     airplay := airplay p; ads := ads p |}.

Definition set_media (v : mediaval) (p : Plyr) : Plyr :=
  {| ready := ready p; loading := loading p; failed := failed p;
     touch := touch p; media := v; config := config p;
     container := container p; captions := captions p;
     fullscreen := fullscreen p; pip := pip p; airplay := airplay p;
     ads := ads p |}.

Definition set_config (v : gmap string json) (p : Plyr) : Plyr :=
  {| ready := ready p; loading := loading p; failed := failed p;
     touch := touch p; media := media p; config := v;
     container := container p; captions := captions p;
     fullscreen := fullscreen p; pip := pip p; airplay := airplay p;
     ads := ads p |}.

Definition set_container (v : option node) (p : Plyr) : Plyr :=
  {| ready := ready p; loading := loading p; failed := failed p;
     touch := touch p; media := media p; config := config p;
     container := v; captions := captions p; fullscreen := fullscreen p;
     pip := pip p; airplay := airplay p; ads := ads p |}.

Definition set_captions (v : block) (p : Plyr) : Plyr :=
  {| ready := ready p; loading := loading p; failed := failed p;
     touch := touch p; media := media p; config := config p;
     container := container p; captions := v; fullscreen := fullscreen p;
     pip := pip p; airplay := airplay p; ads := ads p |}.

Definition set_fullscreen (v : block) (p : Plyr) : Plyr :=
  {| ready := ready p; loading := loading p; failed := failed p;
     touch := touch p; media := media p; config := config p;
     container := container p; captions := captions p; fullscreen := v;
     pip := pip p; airplay := airplay p; ads := ads p |}.

Definition set_pip (v : block) (p : Plyr) : Plyr :=
  {| ready := ready p; loading := loading p; failed := failed p;
     touch := touch p; media := media p; config := config p;
     container := container p; captions := captions p;
     fullscreen := fullscreen p; pip := v; airplay := airplay p;
     ads := ads p |}.

Definition set_airplay (v : block) (p : Plyr) : Plyr :=
  {| ready := ready p; loading := loading p; failed := failed p;
     touch := touch p; media := media p; config := config p;
     container := container p; captions := captions p;
     fullscreen := fullscreen p; pip := pip p; airplay := v; ads := ads p |}.

Definition set_ads (v : block) (p : Plyr) : Plyr :=
  {| ready := ready p; loading := loading p; failed := failed p;
     touch := touch p; media := media p; config := config p;
     container := container p; captions := captions p;
     fullscreen := fullscreen p; pip := pip p; airplay := airplay p;
     ads := v |}.

(** A promise job waiting in the microtask queue. *)
Inductive job :=
| JobCallback (cb : nat)   (* run the function passed to [then] *)
| JobRejection (e : exn)   (* a rejection nobody handles *).

(** The state the façade runs in. *)
Record World := {
  nodes : gmap node Element;
  this : Plyr;
  trace : list event;
  jobs : list job;
}.

Definition on_nodes (f : gmap node Element -> gmap node Element)
  (w : World) : World :=
  {| nodes := f (nodes w); this := this w; trace := trace w; jobs := jobs w |}.

Definition on_this (f : Plyr -> Plyr) (w : World) : World :=
  {| nodes := nodes w; this := f (this w); trace := trace w; jobs := jobs w |}.

Definition log (evs : list event) (w : World) : World :=
  {| nodes := nodes w; this := this w; trace := trace w ++ evs;
     jobs := jobs w |}.

Definition enqueue (j : job) (w : World) : World :=
  {| nodes := nodes w; this := this w; trace := trace w;
     jobs := jobs w ++ [j] |}.

Definition element (e : node) (w : World) : Element := nodes w !!! e.

(** Mutating element [e] in place. *)
Definition update_element (e : node) (f : Element -> Element)
  (ns : gmap node Element) : gmap node Element :=
  <[e := f (ns !!! e)]> ns.

(** What the façade takes from its environment: the document's selector
    engine, the globals, the imported constants, and whether a call into a
    collaborator throws. *)
Record Env := {
  querySelectorAll : string -> option (list node);  (* None: invalid selector *)
  window_jQuery : bool;
  JSON_parse : string -> option json;               (* None: SyntaxError *)
  defaults : json;                                  (* ./config/defaults *)
  Plyr_defaults : json;                             (* the static Plyr.defaults *)
  support_touch : bool;                             (* support.touch *)
  built_state : subsystem -> bool * bool;           (* enabled, active of a new K *)
  throws : event -> bool;
}.

(** ** The monad of façade code: state and exceptions *)

Definition M (A : Type) : Type := World -> World * (exn + A).

#[global] Instance M_ret : MRet M := fun A a w => (w, inr a).

#[global] Instance M_bind : MBind M := fun A B f m w =>
  match m w with
  | (w', inr a) => f a w'
  | (w', inl e) => (w', inl e)
  end.

Definition throw {A} (e : exn) : M A := fun w => (w, inl e).

(** [try { body } catch (e) { handler }]: what the body did before it threw
    stays done. *)
Definition try_catch {A} (body : M A) (handler : exn -> M A) : M A :=
  fun w =>
    match body w with
    | (w', inr a) => (w', inr a)
    | (w', inl e) => handler e w'
    end.

Definition gets {A} (f : World -> A) : M A := fun w => (w, inr (f w)).

Definition modify (f : World -> World) : M unit := fun w => (f w, inr tt).

Definition assign (f : Plyr -> Plyr) : M unit := modify (on_this f).

Definition emit (ev : event) : M unit := modify (log [ev]).

(** ** The façade *)

(** What a caller may pass as the target of [new Plyr(target, options)]. *)
Inductive target :=
| TSelector (s : string)        (* a selector string *)
| TElement (e : node)           (* a single element *)
| TNodeList (l : list node)     (* a NodeList *)
| TJQuery (l : list node)       (* a jQuery object *)
| TOther (l : list node)        (* another collection: array, HTMLCollection *).

(** [[this.media] = this.media]: the first element, if any. *)
Definition first_of (l : list node) : mediaval :=
  match l with
  | [] => MUndefined
  | e :: _ => MElement e
  end.

(** [options || {}]; [None] is an omitted argument. *)
Definition or_empty (options : option json) : json :=
  match options with
  | Some j => if truthy j then j else JObj ∅
  | None => JObj ∅
  end.

(** What [play] returns when it does not return [null]: the Provider's
    promise chained with the reaction [play] attaches to it. *)
Record future := { on_fulfilled : M unit }.

Section Facade.

Variable env : Env.

(** A call into a collaborator: it is recorded, then the environment
    decides whether it throws. *)
Definition call (ev : event) : M unit :=
  emit ev;;
  if throws env ev then throw (Thrown ev) else mret tt.

(** [this.media.<method>(...)] for a method of elements: a TypeError when
    [this.media] is undefined or is an object without that method. *)
Definition media_element : M node :=
  m ← gets (media ∘ this);
  match m with
  | MElement e => mret e
  | MUndefined | MCollection => throw TypeError
  end.

(** [this.media.<property>]: a TypeError on undefined, [undefined] (here
    [dflt]) on an object that lacks the property. *)
Definition media_prop {A} (dflt : A) (f : Element -> A) : M A :=
  m ← gets (media ∘ this);
  match m with
  | MUndefined => throw TypeError
  | MCollection => mret dflt
  | MElement e => gets (fun w => f (element e w))
  end.

Definition setAttribute (e : node) (name : string) (v : prim) : M unit :=
  emit (EvSetAttribute e name (to_string v));;
  modify (on_nodes (update_element e (with_attrs <[name := to_string v]>))).

Definition removeAttribute (e : node) (name : string) : M unit :=
  emit (EvRemoveAttribute e name);;
  modify (on_nodes (update_element e (with_attrs (delete name)))).

(** [document.createElement('div')]: an element not yet in the document. *)
Definition createElement : M node := fun w =>
  let e := fresh (dom (nodes w)) in
  (log [EvCreateElement e] (on_nodes <[e := blank_element]> w), inr e).

Definition assign_ready (b : bool) : M unit :=
  emit (EvReady b);;
  assign (set_ready b).

(** *** Construction *)

(** Lines 46-56: the target becomes [this.media].  When [querySelectorAll]
    rejects the selector the exception leaves the constructor. *)
Definition resolve (t : target) : M unit :=
  match t with
  | TSelector s =>
      match querySelectorAll env s with
      | None => throw SyntaxError
      | Some l => assign (set_media (first_of l))
      end
  | TElement e => assign (set_media (MElement e))
  | TNodeList l => assign (set_media (first_of l))
  | TJQuery l =>
      assign (set_media (if window_jQuery env then first_of l
                         else MCollection))
  | TOther _ => assign (set_media MCollection)
  end.

(** Lines 59-65, the immediately invoked arrow function:
    [try { return JSON.parse(this.media.getAttribute('data-plyr-config')) }
     catch (e) { return {} }].
    [getAttribute] gives [null] for a missing attribute and
    [JSON.parse(null)] is [null]. *)
Definition fragment : M json :=
  try_catch
    (e ← media_element;
     a ← gets (fun w => attrs (element e w) !! "data-plyr-config");
     match a with
     | None => mret JNull
     | Some s =>
         match JSON_parse env s with
         | Some j => mret j
         | None => throw SyntaxError
         end
     end)
    (fun _ => mret (JObj ∅)).

(** Line 59: [this.config = extend({}, defaults, Plyr.defaults,
    options || {}, fragment)]. *)
Definition resolve_config (options : option json) : M unit :=
  f ← fragment;
  assign (set_config
    (extend ∅ [defaults env; Plyr_defaults env; or_empty options; f])).

(** [new K(this)] and the object it yields. *)
Definition build (k : subsystem) : M block :=
  call (EvNew k);;
  mret (Built k (built_state env k).1 (built_state env k).2).

(** [block.method(args)]: the placeholder has no methods. *)
Definition invoke (b : block) (method : string) (args : list jsval)
  : M unit :=
  match b with
  | Placeholder => throw TypeError
  | Built k _ _ => call (EvMethod (OSubsystem k) method args)
  end.

(** [this.config.classNames.container] *)
Definition container_class : M (option json) :=
  c ← gets (config ∘ this);
  match c !! "classNames" with
  | None | Some JNull => throw TypeError
  | Some (JObj m) => mret (m !! "container")
  | Some _ => mret None
  end.

(** The accessor pair [get source()] / [set source(source)], lines
    313-323.  The setter's [this.source] goes through the getter. *)
Definition get_source : M srcval := media_prop SrcMissing prop_source.

Definition set_source (v : jsval) : M unit :=
  s ← get_source;
  match s with
  | SrcObject true =>
      e ← media_element;
      call (EvMethod (OSourceOf e) "change" [v])
  | SrcObject false | SrcMissing => throw TypeError
  end.

(** Lines 517-577. [this.provider] and [this.type] are never assigned by
    the class, so they read as [undefined]. *)
Definition setup : M unit :=
  parent ← media_prop None parentElement;
  assign (set_container parent);;
  c ← match parent with
      | Some c => mret c
      | None =>
          c ← createElement;
          assign (set_container (Some c));;
          setAttribute c "data-plyr-container" (PStr "");;
          m ← gets (media ∘ this);
          call (EvWrap m c);;
          mret c
      end;
  cls ← container_class;
  call (EvClassListAdd c cls);;
  setAttribute c "data-plyr-provider" PUndefined;;
  setAttribute c "data-plyr-type" PUndefined;;
  setAttribute c "role" (PStr "application");;
  e ← media_element;
  setAttribute e "tabindex" (PInt (-1));;
  call (EvMethod (OSubsystem Listeners) "bind" []);;
  call EvUiSetup;;
  call EvMediaSetup;;
  call (EvNew Source);;
  set_source (VObject Source);;
  b ← build Fullscreen;
  assign (set_fullscreen b);;
  b ← build Captions;
  assign (set_captions b);;
  call (EvNew Controls);;
  b ← build Ads;
  assign (set_ads b);;
  call (EvNew PreviewThumbnails);;
  call (EvNew Storage);;
  call (EvNew Console);;
  assign_ready true;;
  m ← gets (media ∘ this);
  call (EvTriggerEvent m "ready").

(** Lines 34-125. *)
Definition constructor (t : target) (options : option json) : M unit :=
  assign_ready false;;
  assign (set_loading false);;
  assign (set_failed false);;
  assign (set_touch (support_touch env));;
  resolve t;;
  resolve_config options;;
  assign (set_container None);;
  assign (set_captions Placeholder);;
  assign (set_fullscreen Placeholder);;
  assign (set_pip Placeholder);;
  assign (set_airplay Placeholder);;
  assign (set_ads Placeholder);;
  call (EvNew Listeners);;
  setup.

(** *** API *)

(** The arrow function passed to [then] in [play]. *)
Definition play_then (focus : bool) : M unit :=
  if focus then
    c ← gets (container ∘ this);
    match c with
    | Some c => emit (EvMethod (OElement c) "focus" [])
    | None => throw TypeError
    end
  else mret tt.

(** Lines 136-152; [None] for the argument is an omitted [focus], which
    defaults to [true]; the result [None] is [null].  The Provider's [play]
    is taken to return a promise, as its interface says. *)
Definition play (focus : option bool) : M (option future) :=
  has ← media_prop false has_play;
  if negb has then mret None
  else
    a ← gets (ads ∘ this);
    (if enabled a && active a then invoke a "play" [] else mret tt);;
    e ← media_element;
    call (EvMethod (OElement e) "play" []);;
    mret (Some {| on_fulfilled := play_then (default true focus) |}).

(** Lines 169-171. *)
Definition playing : M bool := media_prop false prop_playing.

(** Lines 157-163. *)
Definition pause : M unit :=
  p ← playing;
  if negb p then mret tt
  else
    has ← media_prop false has_pause;
    if negb has then mret tt
    else
      e ← media_element;
      call (EvMethod (OElement e) "pause" []).

(** Lines 369-371. *)
Definition setCaptions (language : jsval) : M unit :=
  call (EvCaptionsSet language).

(** Lines 393-395. *)
Definition set_language (language : jsval) : M unit :=
  setCaptions language.

(** Lines 414-416. *)
Definition togglePip (input : jsval) : M unit :=
  b ← gets (pip ∘ this);
  invoke b "toggle" [input].

(** Lines 422-424. *)
Definition toggleAirplay (input : jsval) : M unit :=
  b ← gets (airplay ∘ this);
  invoke b "toggle" [input].

(** *** Teardown *)

(** The executor of the promise in [destroy], up to [resolve()]. *)
Definition teardown : M unit :=
  call EvUiReset;;
  e ← media_element;
  setAttribute e "data-plyr" PNull;;
  e ← media_element;
  removeAttribute e "tabindex";;
  call EvUnbindListeners;;
  assign_ready false.

(** Lines 480-499: [new Promise(executor).then(callback)].  The executor
    runs at once; when it throws the promise is rejected, and [then] with
    a single argument passes a rejection on without running it.  A
    callback that is not a function ([None]) is ignored by [then].
    [destroy] itself never throws. *)
Definition destroy (callback : option nat) : M unit := fun w =>
  match teardown w with
  | (w', inr _) =>
      (match callback with
       | Some cb => enqueue (JobCallback cb) w'
       | None => w'
       end, inr tt)
  | (w', inl e) => (enqueue (JobRejection e) w', inr tt)
  end.

End Facade.

(** Running the queued promise jobs, once the current code has returned. *)
Definition run_job (w : World) (j : job) : World :=
  match j with
  | JobCallback cb => log [EvCallback cb] w
  | JobRejection _ => w
  end.

Definition run_jobs (w : World) : World :=
  foldl run_job
    {| nodes := nodes w; this := this w; trace := trace w; jobs := [] |}
    (jobs w).

(** ** Notions used by the statements *)

(** No element comes out of target resolution. *)
Definition no_element (env : Env) (t : target) : bool :=
  match t with
  | TSelector s =>
      match querySelectorAll env s with
      | Some (_ :: _) => false
      | Some [] | None => true
      end
  | TElement _ => false
  | TNodeList l | TJQuery l | TOther l =>
      match l with [] => true | _ :: _ => false end
  end.

Definition is_ready_event (ev : event) : bool :=
  match ev with
  | EvTriggerEvent _ type => String.eqb type "ready"
  | _ => false
  end.

(** How many times a [ready] event was triggered. *)
Definition ready_count (t : list event) : nat :=
  length (filter (fun ev => is_ready_event ev = true) t).

(** The text of the per-element configuration fragment, when the target
    element carries one. *)
Definition fragment_text (w : World) : option string :=
  match media (this w) with
  | MElement e => attrs (element e w) !! "data-plyr-config"
  | MUndefined | MCollection => None
  end.

(** The value the fragment contributes as fourth source of the merge: the
    parsed text; [null] when the element has no such attribute; [{}] when
    the text does not parse or there is no element to ask. *)
Definition parsed_fragment (env : Env) (w : World) : json :=
  match fragment_text w with
  | None =>
      match media (this w) with
      | MElement _ => JNull
      | MUndefined | MCollection => JObj ∅
      end
  | Some s => default (JObj ∅) (JSON_parse env s)
  end.

(** The events the queued jobs add to the trace when they run. *)
Definition job_trace (js : list job) : list event :=
  flat_map (fun j => match j with
                     | JobCallback cb => [EvCallback cb]
                     | JobRejection _ => []
                     end) js.

(** Whether the callback [cb] was invoked somewhere in a trace. *)
Definition invoked (cb : nat) (t : list event) : bool :=
  existsb (fun ev => match ev with
                     | EvCallback cb' => Nat.eqb cb cb'
                     | _ => false
                     end) t.

(** The state [destroy] leaves before the jobs run, when no step throws. *)
Definition torn_down (e : node) (w : World) : World :=
  on_this (set_ready false)
    (log [EvReady false]
       (log [EvUnbindListeners]
          (on_nodes (update_element e (with_attrs (delete "tabindex")))
             (log [EvRemoveAttribute e "tabindex"]
                (on_nodes
                   (update_element e (with_attrs <["data-plyr" := "null"]>))
                   (log [EvSetAttribute e "data-plyr" "null"]
                      (log [EvUiReset] w))))))).

(** ** A small document to run the façade on *)

Module Demo.

Definition dq : string := String (Ascii.ascii_of_nat 34) "".

(** The text [{"seekTime":5}]. *)
Definition fragment_json : string :=
  "{" +:+ dq +:+ "seekTime" +:+ dq +:+ ":5}".

Definition parse (s : string) : option json :=
  if String.eqb s fragment_json then Some (JObj {[ "seekTime" := JNum 5 ]})
  else if String.eqb s "null" then Some JNull
  else None.

Definition base_config : json :=
  JObj {[ "classNames" := JObj {[ "container" := JStr "plyr" ]};
          "seekTime" := JNum 10 ]}.

(** The selector [#player] matches element 1; [bad] tells which calls
    into collaborators throw; a new Ads object is enabled and active. *)
Definition env (bad : event -> bool) : Env :=
  {| querySelectorAll := fun s =>
       if String.eqb s "#player" then Some [1] else Some [];
     window_jQuery := false;
     JSON_parse := parse;
     defaults := base_config;
     Plyr_defaults := base_config;
     support_touch := false;
     built_state := fun k => match k with Ads => (true, true) | _ => (false, false) end;
     throws := bad |}.

Definition quiet (ev : event) : bool := false.

Definition ui_reset_fails (ev : event) : bool :=
  match ev with EvUiReset => true | _ => false end.

(** Element 1 is a media element inside element 0. *)
Definition video : Element :=
  {| attrs := {[ "data-plyr-config" := fragment_json ]};
     parentElement := Some 0;
     has_play := true; has_pause := false; prop_playing := true;
     prop_source := SrcObject true |}.

(** Element 2 is a native media element: no [source] property. *)
Definition native_video : Element :=
  {| attrs := ∅; parentElement := Some 0;
     has_play := true; has_pause := true; prop_playing := false;
     prop_source := SrcMissing |}.

Definition fresh_this : Plyr :=
  {| ready := false; loading := false; failed := false; touch := false;
     media := MUndefined; config := ∅; container := None;
     captions := Placeholder; fullscreen := Placeholder;
     pip := Placeholder; airplay := Placeholder; ads := Placeholder |}.

Definition page : World :=
  {| nodes := {[ 0 := blank_element; 1 := video; 2 := native_video ]};
     this := fresh_this; trace := []; jobs := [] |}.

(** The world after [new Plyr('#player')]. *)
Definition constructed : World :=
  (constructor (env quiet) (TSelector "#player") None page).1.

End Demo.

(** ** More of the API *)

Section MoreFacade.

Variable env : Env.

(** Lines 345-347, [get autoplay()]: [this.config.autoplay]; [None] is
    [undefined]. *)
Definition get_autoplay : M (option json) :=
  gets (fun w => config (this w) !! "autoplay").

(** Lines 353-355, [set autoplay(autoplay)]: [this.config.autoplay =
    autoplay]. *)
Definition set_autoplay (autoplay : json) : M unit :=
  c ← gets (config ∘ this);
  assign (set_config (<["autoplay" := autoplay]> c)).

(** Lines 401-408; [fullscreenElement] is [document.fullscreenElement],
    [None] when the platform shows nothing in fullscreen. *)
Definition toggleFullscreen (fullscreenElement : option node)
  (input : jsval) : M unit :=
  b ← gets (fullscreen ∘ this);
  if active b && match fullscreenElement with
                 | None => true
                 | Some _ => false
                 end
  then invoke env b "exit" []
  else invoke env b "toggle" [input].

End MoreFacade.

(** ** The outcome of a successful construction, written out *)

(** The container [setup] settles on for media element [e]: its parent
    element, or else the element [document.createElement] hands out. *)
Definition container_for (e : node) (w : World) : node :=
  match parentElement (element e w) with
  | Some c => c
  | None => fresh (dom (nodes w))
  end.

(** The value of [this.config.classNames.container] when reading it does not
    throw. *)
Definition class_token (c : gmap string json) : option json :=
  match c !! "classNames" with
  | Some (JObj m) => m !! "container"
  | _ => None
  end.

(** The effects of lines 519-524. *)
Definition container_trace (e c : node) (parent : option node)
  : list event :=
  match parent with
  | Some _ => []
  | None =>
      [EvCreateElement c; EvSetAttribute c "data-plyr-container" "";
       EvWrap (MElement e) c]
  end.

(** The effects of lines 527-570: tagging, listeners, then the subsystems. *)
Definition wiring_trace (e c : node) (cls : option json) : list event :=
  [EvClassListAdd c cls;
   EvSetAttribute c "data-plyr-provider" "undefined";
   EvSetAttribute c "data-plyr-type" "undefined";
   EvSetAttribute c "role" "application";
   EvSetAttribute e "tabindex" "-1";
   EvMethod (OSubsystem Listeners) "bind" [];
   EvUiSetup;
   EvMediaSetup;
   EvNew Source;
   EvMethod (OSourceOf e) "change" [VObject Source];
   EvNew Fullscreen;
   EvNew Captions;
   EvNew Controls;
   EvNew Ads;
   EvNew PreviewThumbnails;
   EvNew Storage;
   EvNew Console].

(** All the effects of a successful [setup]. *)
Definition setup_trace (e c : node) (parent : option node)
  (cls : option json) : list event :=
  container_trace e c parent ++ wiring_trace e c cls
    ++ [EvReady true; EvTriggerEvent (MElement e) "ready"].

(** The document a successful [setup] leaves. *)
Definition setup_nodes (e c : node) (parent : option node)
  (ns : gmap node Element) : gmap node Element :=
  update_element e (with_attrs <["tabindex" := "-1"]>)
    (update_element c (with_attrs <["role" := "application"]>)
       (update_element c (with_attrs <["data-plyr-type" := "undefined"]>)
          (update_element c
             (with_attrs <["data-plyr-provider" := "undefined"]>)
             match parent with
             | Some _ => ns
             | None =>
                 update_element c
                   (with_attrs <["data-plyr-container" := ""]>)
                   (<[c := blank_element]> ns)
             end))).

Definition built (env : Env) (k : subsystem) : block :=
  Built k (built_state env k).1 (built_state env k).2.

(** The instance a successful construction leaves. *)
Definition constructed_this (env : Env) (e c : node)
  (cfg : gmap string json) : Plyr :=
  {| ready := true; loading := false; failed := false;
     touch := support_touch env; media := MElement e; config := cfg;
     container := Some c; captions := built env Captions;
     fullscreen := built env Fullscreen; pip := Placeholder;
     airplay := Placeholder; ads := built env Ads |}.

(** The element a target resolves to, if any (lines 46-56). *)
Definition bound_element (env : Env) (t : target) : option node :=
  match t with
  | TSelector s => querySelectorAll env s ≫= head
  | TElement e => Some e
  | TNodeList l => head l
  | TJQuery l => if window_jQuery env then head l else None
  | TOther _ => None
  end.

(** The calls into collaborators among some effects: the ones the
    environment may let throw. *)
Definition is_call (ev : event) : bool :=
  match ev with
  | EvCreateElement _ | EvSetAttribute _ _ _ | EvRemoveAttribute _ _
  | EvReady _ | EvCallback _ => false
  | _ => true
  end.

Definition quiet_on (env : Env) (evs : list event) : Prop :=
  Forall (fun ev => throws env ev = false) (List.filter is_call evs).

(** The configuration the constructor computes when the target resolves to
    element [e]. *)
Definition construction_config (env : Env) (options : option json)
  (e : node) (w : World) : gmap string json :=
  extend ∅ [defaults env; Plyr_defaults env; or_empty options;
            parsed_fragment env (on_this (set_media (MElement e)) w)].

(** All the effects of a successful construction over element [e]. *)
Definition construction_trace (env : Env) (options : option json)
  (e : node) (w : World) : list event :=
  [EvReady false; EvNew Listeners]
    ++ setup_trace e (container_for e w) (parentElement (element e w))
         (class_token (construction_config env options e w)).

(** The attribute writes among some effects: which attribute of which
    element [setAttribute] and [removeAttribute] were called for. *)
Definition dom_writes (evs : list event) : list (node * string) :=
  flat_map (fun ev => match ev with
                      | EvSetAttribute e name _ => [(e, name)]
                      | EvRemoveAttribute e name => [(e, name)]
                      | _ => []
                      end) evs.

(** The elements some effects create. *)
Definition created (evs : list event) : list node :=
  flat_map (fun ev => match ev with
                      | EvCreateElement e => [e]
                      | _ => []
                      end) evs.

(** ** A second environment, in which all four sources differ *)

Module Tuned.

(** [Plyr.defaults] after a caller tuned it. *)
Definition static_config : json :=
  JObj {[ "seekTime" := JNum 20; "volume" := JNum 1 ]}.

(** The options of the caller. *)
Definition options : json :=
  JObj {[ "seekTime" := JNum 7; "autoplay" := JBool true ]}.

Definition env : Env :=
  {| querySelectorAll := querySelectorAll (Demo.env Demo.quiet);
     window_jQuery := false;
     JSON_parse := Demo.parse;
     defaults := Demo.base_config;
     Plyr_defaults := static_config;
     support_touch := false;
     built_state := built_state (Demo.env Demo.quiet);
     throws := Demo.quiet |}.

End Tuned.

(** * Properties *)

(** ** The monad *)

Lemma bind_run {A B} (m : M A) (f : A -> M B) (w : World) :
  (m ≫= f) w =
  match m w with
  | (w', inr a) => f a w'
  | (w', inl e) => (w', inl e)
  end.
Proof. reflexivity. Qed.

(** Unfold the primitives of the façade. *)
Ltac run :=
  unfold call, media_element, media_prop, setAttribute, removeAttribute,
    assign_ready, build, invoke, emit, assign, modify, gets, throw, try_catch,
    mbind, M_bind, mret, M_ret in *.

(** Reduce the projections of worlds built by the primitives. *)
Ltac project :=
  cbn [fst snd media this container config pip airplay ads ready nodes trace
       jobs on_this on_nodes log enqueue compose set_ready set_loading
       set_failed set_touch set_media set_config set_container set_captions
       set_fullscreen set_pip set_airplay set_ads] in *.

Lemma bind_inr {A B} (m : M A) (f : A -> M B) (w w' : World) (b : B) :
  (m ≫= f) w = (w', inr b) ->
  exists w1 a, m w = (w1, inr a) /\ f a w1 = (w', inr b).
Proof.
  rewrite bind_run. destruct (m w) as [w1 [e|a]]; [discriminate|]. eauto.
Qed.

Lemma call_run (env : Env) (ev : event) (w : World) :
  call env ev w =
  (log [ev] w, if throws env ev then inl (Thrown ev) else inr tt).
Proof. unfold call. run. by destruct (throws env ev). Qed.

Lemma call_inr (env : Env) (ev : event) (w w1 : World) (u : unit) :
  call env ev w = (w1, inr u) -> w1 = log [ev] w.
Proof. rewrite call_run. by intros [= <- _]. Qed.

Lemma media_element_inr (w w1 : World) (e : node) :
  media_element w = (w1, inr e) -> w1 = w /\ media (this w) = MElement e.
Proof.
  unfold media_element. run. cbn. destruct (media (this w)); try discriminate.
  by intros [= <- <-].
Qed.

Lemma media_element_run (w : World) (e : node) :
  media (this w) = MElement e -> media_element w = (w, inr e).
Proof. unfold media_element. run. cbn. by intros ->. Qed.

Lemma media_prop_inr {A} (d : A) (f : Element -> A) (w w1 : World) (a : A) :
  media_prop d f w = (w1, inr a) ->
  w1 = w /\ media (this w) <> MUndefined /\
  forall e, media (this w) = MElement e -> a = f (element e w).
Proof.
  unfold media_prop. run. cbn. destruct (media (this w)); try discriminate;
    intros [= <- <-]; repeat split; congruence.
Qed.

Lemma media_prop_run {A} (d : A) (f : Element -> A) (w : World) (e : node) :
  media (this w) = MElement e ->
  media_prop d f w = (w, inr (f (element e w))).
Proof. unfold media_prop. run. cbn. by intros ->. Qed.

Lemma build_inr (env : Env) (k : subsystem) (w w1 : World) (b : block) :
  build env k w = (w1, inr b) ->
  w1 = log [EvNew k] w /\
  b = Built k (built_state env k).1 (built_state env k).2.
Proof.
  unfold build. intros H. apply bind_inr in H as (w2 & u & H1 & H).
  apply call_inr in H1 as ->. by injection H as <- <-.
Qed.

Lemma set_source_inr (env : Env) (v : jsval) (w w1 : World) (u : unit) :
  set_source env v w = (w1, inr u) ->
  exists e, media (this w) = MElement e
    /\ prop_source (element e w) = SrcObject true
    /\ w1 = log [EvMethod (OSourceOf e) "change" [v]] w.
Proof.
  unfold set_source, get_source. intros H.
  apply bind_inr in H as (w2 & s & H1 & H).
  apply media_prop_inr in H1 as (-> & Hu & Hs).
  destruct s as [|[]]; try discriminate.
  apply bind_inr in H as (w3 & e & H1 & H).
  apply media_element_inr in H1 as [-> Hm].
  apply call_inr in H as ->. exists e. rewrite <- (Hs e Hm). done.
Qed.

Lemma container_class_inr (w w1 : World) (a : option json) :
  container_class w = (w1, inr a) -> w1 = w.
Proof.
  unfold container_class. run. cbn.
  destruct (config (this w) !! "classNames") as [[]|]; try discriminate;
    by intros [= <- _].
Qed.

Lemma setAttribute_run (e : node) (name : string) (v : prim) (w : World) :
  setAttribute e name v w =
  (on_nodes (update_element e (with_attrs <[name := to_string v]>))
     (log [EvSetAttribute e name (to_string v)] w), inr tt).
Proof. reflexivity. Qed.

Lemma removeAttribute_run (e : node) (name : string) (w : World) :
  removeAttribute e name w =
  (on_nodes (update_element e (with_attrs (delete name)))
     (log [EvRemoveAttribute e name] w), inr tt).
Proof. reflexivity. Qed.

Lemma assign_run (f : Plyr -> Plyr) (w : World) :
  assign f w = (on_this f w, inr tt).
Proof. reflexivity. Qed.

Lemma assign_ready_run (b : bool) (w : World) :
  assign_ready b w = (on_this (set_ready b) (log [EvReady b] w), inr tt).
Proof. reflexivity. Qed.

Lemma gets_run {A} (f : World -> A) (w : World) : gets f w = (w, inr (f w)).
Proof. reflexivity. Qed.

Lemma createElement_run (w : World) :
  createElement w =
  (log [EvCreateElement (fresh (dom (nodes w)))]
     (on_nodes <[fresh (dom (nodes w)) := blank_element]> w),
   inr (fresh (dom (nodes w)))).
Proof. reflexivity. Qed.

(** Invert the successful run of one primitive. *)
Ltac settle H1 :=
  first
    [ apply call_inr in H1; subst
    | apply media_element_inr in H1 as [-> ?]
    | apply build_inr in H1 as [-> ->]
    | apply set_source_inr in H1 as (? & ? & ? & ->)
    | apply container_class_inr in H1 as ->
    | rewrite setAttribute_run in H1; injection H1 as <- <-
    | rewrite removeAttribute_run in H1; injection H1 as <- <-
    | rewrite assign_ready_run in H1; injection H1 as <- <-
    | rewrite assign_run in H1; injection H1 as <- <-
    | rewrite gets_run in H1; injection H1 as <- <-
    | rewrite createElement_run in H1; injection H1 as <- <- ].

(** Invert the successful run of a sequence, one statement at a time. *)
Ltac step H :=
  let w1 := fresh "w" in
  let a := fresh "a" in
  let H1 := fresh "Hs" in
  lazymatch type of H with
  | (_ ≫= _) _ = _ =>
      apply bind_inr in H as (w1 & a & H1 & H);
      try settle H1; cbv beta in H; project
  end.

(** Name the events that precede the last two of a trace. *)
Ltac split_trace w e c :=
  rewrite <- ?app_assoc; cbn [app];
  lazymatch goal with
  | |- context [trace w ++ ?l = _] =>
      let n := eval cbn in (length l - 2) in
      let pre := eval cbn [firstn] in (firstn n l) in
      exists e, c, pre
  end.

(** ** Configuration merging *)








Lemma fragment_run (env : Env) (w : World) :
  fragment env w = (w, inr (parsed_fragment env w)).
Proof.
  unfold fragment, parsed_fragment, fragment_text. run. cbn.
  destruct (media (this w)) as [|e|]; try reflexivity.
  destruct (attrs (element e w) !! "data-plyr-config") as [s|]; [|reflexivity].
  destruct (JSON_parse env s); reflexivity.
Qed.

Lemma resolve_config_run (env : Env) (options : option json) (w : World) :
  resolve_config env options w =
  (on_this (set_config
     (extend ∅ [defaults env; Plyr_defaults env; or_empty options;
                parsed_fragment env w])) w, inr tt).
Proof. unfold resolve_config. rewrite bind_run, fragment_run. reflexivity. Qed.



(** ** Construction *)

Lemma ready_count_app (l1 l2 : list event) :
  ready_count (l1 ++ l2) = ready_count l1 + ready_count l2.
Proof. unfold ready_count. by rewrite filter_app, length_app. Qed.

(** A successful [resolve] stored what the target resolves to, and that is
    no element when no element resolves. *)
Lemma resolve_inr (env : Env) (t : target) (w w1 : World) (u : unit) :
  resolve env t w = (w1, inr u) ->
  exists m, w1 = on_this (set_media m) w
    /\ (no_element env t = true -> forall e, m <> MElement e).
Proof.
  unfold resolve, no_element. destruct t as [s|e|l|l|l].
  - destruct (querySelectorAll env s) as [[|e l]|]; try discriminate;
      rewrite assign_run; intros [= <-]; eexists; split;
      try reflexivity; cbn; congruence.
  - rewrite assign_run; intros [= <-]; eexists; split;
      try reflexivity; discriminate.
  - rewrite assign_run; intros [= <-]; eexists; split; try reflexivity.
    destruct l; cbn; congruence.
  - rewrite assign_run; intros [= <-]; eexists; split; try reflexivity.
    destruct (window_jQuery env), l; cbn; congruence.
  - rewrite assign_run; intros [= <-]; eexists; split; try reflexivity.
    congruence.
Qed.

(** What a successful [setup] has done. *)
Lemma setup_inr (env : Env) (w w' : World) :
  setup env w = (w', inr tt) ->
  exists e c pre,
    media (this w) = MElement e /\ media (this w') = MElement e
    /\ container (this w') = Some c
    /\ pip (this w') = pip (this w) /\ airplay (this w') = airplay (this w)
    /\ ready (this w') = true
    /\ trace w' =
       trace w ++ pre ++ [EvReady true; EvTriggerEvent (MElement e) "ready"]
    /\ ready_count pre = 0.
Proof.
  intros H. unfold setup in H.
  step H. apply media_prop_inr in Hs as (-> & Hu & Hp).
  step H. step H.
  destruct a as [c|].
  - injection Hs as <- <-.
    repeat step H. apply call_inr in H as ->. project.
    match goal with
    | Hm : media (this w) = MElement ?e |- _ =>
        rewrite Hm; split_trace w e c; repeat split; reflexivity
    end.
  - repeat step Hs. injection Hs as <- <-. project.
    repeat step H. apply call_inr in H as ->. project.
    match goal with
    | Hm : media (this w) = MElement ?e |- _ =>
        rewrite Hm; split_trace w e (fresh (dom (nodes w)));
        repeat split; reflexivity
    end.
Qed.

(** What a successful construction has done. *)
Lemma constructor_inr (env : Env) (t : target) (o : option json)
  (w w' : World) :
  constructor env t o w = (w', inr tt) ->
  exists e c pre,
    no_element env t = false
    /\ media (this w') = MElement e
    /\ container (this w') = Some c
    /\ pip (this w') = Placeholder /\ airplay (this w') = Placeholder
    /\ ready (this w') = true
    /\ trace w' =
       trace w ++ pre ++ [EvReady true; EvTriggerEvent (MElement e) "ready"]
    /\ ready_count pre = 0.
Proof.
  intros H. unfold constructor in H.
  do 5 step H. apply resolve_inr in Hs as (m & -> & Hnone).
  step H. rewrite resolve_config_run in Hs. injection Hs as <- <-. project.
  repeat step H.
  apply setup_inr in H
    as (e & c & pre & Hm & Hm' & Hc & Hpip & Hair & Hr & Htr & Hcount).
  project. subst m.
  exists e, c, ([EvReady false; EvNew Listeners] ++ pre).
  split; [|repeat split; try assumption].
  - destruct (no_element env t); [|reflexivity].
    by destruct (Hnone eq_refl e).
  - rewrite Htr, <- !app_assoc. reflexivity.
Qed.

(** C9: when no element resolves from the target (a selector that matches
    nothing or is rejected, an empty collection), construction throws: the
    caller of [new Plyr] gets an exception and no instance. *)
Theorem construction_fails_without_element (env : Env) (t : target)
  (options : option json) (w : World) :
  no_element env t = true ->
  exists w' err, constructor env t options w = (w', inl err).
Proof.
  intros Hnone.
  destruct (constructor env t options w) as [w' [err|[]]] eqn:H; [eauto|].
  apply constructor_inr in H as (e & c & pre & Hsome & _).
  congruence.
Qed.

(** The selector [#nothing] matches no element of the demo page. *)
Lemma construction_fails_without_element_witness :
  exists w' err,
    constructor (Demo.env Demo.quiet) (TSelector "#nothing") None Demo.page
    = (w', inl err).
Proof.
  apply (construction_fails_without_element
           (Demo.env Demo.quiet) (TSelector "#nothing") None Demo.page).
  reflexivity.
Defined.

(** The demo construction succeeds. *)
Lemma demo_constructed :
  constructor (Demo.env Demo.quiet) (TSelector "#player") None Demo.page
  = (Demo.constructed, inr tt).
Proof. vm_compute. reflexivity. Qed.

(** C3, as the code has it: a successful construction triggers the [ready]
    event exactly once, as its very last effect, right after [ready] has
    been set to true, and its target is the media element ([this.media]),
    not the container. *)
Theorem ready_event_once_on_media (env : Env) (t : target)
  (options : option json) (w w' : World) :
  constructor env t options w = (w', inr tt) ->
  exists e evs,
    media (this w') = MElement e
    /\ ready (this w') = true
    /\ trace w' =
       trace w ++ evs ++ [EvReady true; EvTriggerEvent (MElement e) "ready"]
    /\ ready_count evs = 0
    /\ ready_count
         (evs ++ [EvReady true; EvTriggerEvent (MElement e) "ready"]) = 1.
Proof.
  intros H.
  apply constructor_inr in H
    as (e & c & pre & _ & Hm & _ & _ & _ & Hr & Htr & Hcount).
  exists e, pre. repeat split; try assumption.
  rewrite ready_count_app, Hcount. reflexivity.
Qed.

Lemma ready_event_once_on_media_witness :
  exists e evs,
    media (this Demo.constructed) = MElement e
    /\ ready (this Demo.constructed) = true
    /\ trace Demo.constructed =
       trace Demo.page ++ evs
         ++ [EvReady true; EvTriggerEvent (MElement e) "ready"]
    /\ ready_count evs = 0
    /\ ready_count
         (evs ++ [EvReady true; EvTriggerEvent (MElement e) "ready"]) = 1.
Proof.
  exact (ready_event_once_on_media (Demo.env Demo.quiet)
           (TSelector "#player") None Demo.page Demo.constructed
           demo_constructed).
Defined.

(** C3, as the claim has it, fails: on the demo page the container is
    element 0 and the only [ready] event is triggered on element 1, the
    media element; none is triggered on the container. *)
Lemma ready_event_not_on_container :
  container (this Demo.constructed) = Some 0
  /\ filter (fun ev => is_ready_event ev = true) (trace Demo.constructed)
     = [EvTriggerEvent (MElement 1) "ready"]
  /\ EvTriggerEvent (MElement 0) "ready" ∉ trace Demo.constructed.
Proof.
  split; [vm_compute; reflexivity|].
  split; [vm_compute; reflexivity|].
  intros Hin.
  assert (Hf : EvTriggerEvent (MElement 0) "ready"
               ∈ filter (fun ev => is_ready_event ev = true)
                   (trace Demo.constructed)).
  { apply list_elem_of_filter. split; [reflexivity | exact Hin]. }
  replace (filter (fun ev => is_ready_event ev = true) (trace Demo.constructed))
    with [EvTriggerEvent (MElement 1) "ready"] in Hf
    by (vm_compute; reflexivity).
  apply list_elem_of_singleton in Hf. discriminate Hf.
Qed.

(** C5, on the code: [setup] never replaces the [pip] and [airplay]
    placeholders of the constructor, so on every constructed instance
    [togglePip] and [toggleAirplay] find no [toggle] to call: both throw a
    TypeError and leave the world as it was. *)
Theorem toggle_pip_airplay_throw (env : Env) (t : target)
  (options : option json) (w w' : World) (input : jsval) :
  constructor env t options w = (w', inr tt) ->
  pip (this w') = Placeholder
  /\ airplay (this w') = Placeholder
  /\ togglePip env input w' = (w', inl TypeError)
  /\ toggleAirplay env input w' = (w', inl TypeError).
Proof.
  intros H.
  apply constructor_inr in H
    as (e & c & pre & _ & _ & _ & Hpip & Hair & _).
  unfold togglePip, toggleAirplay.
  rewrite !bind_run, !gets_run. cbn [compose]. rewrite Hpip, Hair.
  repeat split; reflexivity.
Qed.

Lemma toggle_pip_airplay_throw_witness :
  pip (this Demo.constructed) = Placeholder
  /\ airplay (this Demo.constructed) = Placeholder
  /\ togglePip (Demo.env Demo.quiet) (VJson (JBool true)) Demo.constructed
     = (Demo.constructed, inl TypeError)
  /\ toggleAirplay (Demo.env Demo.quiet) (VJson (JBool true)) Demo.constructed
     = (Demo.constructed, inl TypeError).
Proof.
  exact (toggle_pip_airplay_throw (Demo.env Demo.quiet)
           (TSelector "#player") None Demo.page Demo.constructed
           (VJson (JBool true)) demo_constructed).
Defined.

(** ** Teardown *)

Lemma teardown_run (env : Env) (w : World) (e : node) :
  media (this w) = MElement e ->
  teardown env w =
  if throws env EvUiReset then (log [EvUiReset] w, inl (Thrown EvUiReset))
  else if throws env EvUnbindListeners
       then (log [EvUnbindListeners]
               (on_nodes (update_element e (with_attrs (delete "tabindex")))
                  (log [EvRemoveAttribute e "tabindex"]
                     (on_nodes
                        (update_element e
                           (with_attrs <["data-plyr" := "null"]>))
                        (log [EvSetAttribute e "data-plyr" "null"]
                           (log [EvUiReset] w))))),
             inl (Thrown EvUnbindListeners))
       else (torn_down e w, inr tt).
Proof.
  intros Hm. unfold teardown. rewrite bind_run, call_run.
  destruct (throws env EvUiReset); [reflexivity|].
  rewrite bind_run, (media_element_run _ e) by exact Hm.
  rewrite bind_run, setAttribute_run.
  rewrite bind_run, (media_element_run _ e) by exact Hm.
  rewrite bind_run, removeAttribute_run.
  rewrite bind_run, call_run.
  destruct (throws env EvUnbindListeners); reflexivity.
Qed.

Lemma run_jobs_fold (js : list job) :
  forall w0 : World,
    nodes (foldl run_job w0 js) = nodes w0
    /\ this (foldl run_job w0 js) = this w0
    /\ trace (foldl run_job w0 js) = trace w0 ++ job_trace js.
Proof.
  induction js as [|j js IH]; intros w0; cbn [foldl job_trace flat_map].
  - by rewrite app_nil_r.
  - destruct (IH (run_job w0 j)) as (Hn & Ht & Htr).
    rewrite Hn, Ht, Htr. destruct j; cbn; rewrite <- ?app_assoc; done.
Qed.

Lemma run_jobs_spec (w : World) :
  nodes (run_jobs w) = nodes w
  /\ this (run_jobs w) = this w
  /\ trace (run_jobs w) = trace w ++ job_trace (jobs w).
Proof.
  unfold run_jobs.
  exact (run_jobs_fold (jobs w)
           {| nodes := nodes w; this := this w; trace := trace w;
              jobs := [] |}).
Qed.

Lemma job_trace_app (js1 js2 : list job) :
  job_trace (js1 ++ js2) = job_trace js1 ++ job_trace js2.
Proof. unfold job_trace. apply flat_map_app. Qed.

Lemma destroy_run (env : Env) (w : World) (e : node) (callback : option nat) :
  media (this w) = MElement e ->
  throws env EvUiReset = false ->
  throws env EvUnbindListeners = false ->
  destroy env callback w =
  (match callback with
   | Some cb => enqueue (JobCallback cb) (torn_down e w)
   | None => torn_down e w
   end, inr tt).
Proof.
  intros Hm H1 H2. unfold destroy.
  rewrite (teardown_run env w e Hm), H1, H2. reflexivity.
Qed.

Lemma torn_down_attrs (e : node) (w : World) :
  attrs (element e (torn_down e w)) =
  delete "tabindex" (<["data-plyr" := "null"]> (attrs (element e w))).
Proof.
  unfold element, torn_down. project. unfold update_element.
  rewrite !lookup_total_insert_eq. reflexivity.
Qed.

(** C2, on the code: once [destroy(callback)] has resolved (no teardown step
    threw and the queued jobs have run), [ready] is false and the target
    element has no [tabindex] attribute, but it does carry the marker
    attribute [data-plyr], with the value ["null"]:
    [setAttribute('data-plyr', null)] stores the string instead of removing
    the attribute. *)
Theorem destroy_leaves_marker (env : Env) (w : World) (e : node)
  (callback : option nat) :
  media (this w) = MElement e ->
  throws env EvUiReset = false ->
  throws env EvUnbindListeners = false ->
  let w' := run_jobs (destroy env callback w).1 in
  ready (this w') = false
  /\ attrs (element e w') !! "tabindex" = None
  /\ attrs (element e w') !! "data-plyr" = Some "null".
Proof.
  intros Hm H1 H2 w'. subst w'.
  rewrite (destroy_run env w e callback Hm H1 H2). cbn [fst].
  set (w1 := match callback with
             | Some cb => enqueue (JobCallback cb) (torn_down e w)
             | None => torn_down e w
             end).
  destruct (run_jobs_spec w1) as (Hn & Ht & _).
  assert (Hn1 : nodes w1 = nodes (torn_down e w))
    by (subst w1; destruct callback; reflexivity).
  assert (Ht1 : this w1 = this (torn_down e w))
    by (subst w1; destruct callback; reflexivity).
  assert (Hel : element e (run_jobs w1) = element e (torn_down e w))
    by (unfold element; rewrite Hn, Hn1; reflexivity).
  rewrite Ht, Ht1, Hel, torn_down_attrs.
  split; [reflexivity|]. split.
  - apply lookup_delete_eq.
  - rewrite lookup_delete_ne by discriminate. apply lookup_insert_eq.
Qed.

Lemma destroy_leaves_marker_witness :
  let w' := run_jobs (destroy (Demo.env Demo.quiet) (Some 7)
                        Demo.constructed).1 in
  ready (this w') = false
  /\ attrs (element 1 w') !! "tabindex" = None
  /\ attrs (element 1 w') !! "data-plyr" = Some "null".
Proof.
  apply (destroy_leaves_marker (Demo.env Demo.quiet) Demo.constructed 1
           (Some 7)); reflexivity.
Defined.

(** C7, as the code has it: [destroy] itself never throws; when none of
    the teardown steps throws, the callback runs after the five effects of
    teardown (UI reset, the two attribute operations, listener unbinding,
    [ready = false]) and after the jobs queued before it; when the UI reset
    or the listener unbinding throws, the remaining steps are skipped and
    nothing but the jobs queued before is run: the callback is dropped. *)
Theorem destroy_callback_after_teardown (env : Env) (w : World) (e : node)
  (cb : nat) :
  media (this w) = MElement e ->
  let w' := run_jobs (destroy env (Some cb) w).1 in
  (destroy env (Some cb) w).2 = inr tt
  /\ (throws env EvUiReset = false ->
      throws env EvUnbindListeners = false ->
      trace w' =
      trace w
        ++ [EvUiReset; EvSetAttribute e "data-plyr" "null";
            EvRemoveAttribute e "tabindex"; EvUnbindListeners; EvReady false]
        ++ job_trace (jobs w) ++ [EvCallback cb])
  /\ (throws env EvUiReset = true ->
      trace w' = trace w ++ [EvUiReset] ++ job_trace (jobs w))
  /\ (throws env EvUiReset = false ->
      throws env EvUnbindListeners = true ->
      trace w' =
      trace w
        ++ [EvUiReset; EvSetAttribute e "data-plyr" "null";
            EvRemoveAttribute e "tabindex"; EvUnbindListeners]
        ++ job_trace (jobs w)).
Proof.
  intros Hm w'. subst w'. unfold destroy.
  rewrite (teardown_run env w e Hm).
  split; [by destruct (throws env EvUiReset), (throws env EvUnbindListeners)|].
  repeat split.
  - intros -> ->. cbn [fst].
    destruct (run_jobs_spec (enqueue (JobCallback cb) (torn_down e w)))
      as (_ & _ & ->).
    unfold torn_down. project. rewrite job_trace_app, <- !app_assoc.
    reflexivity.
  - intros ->. cbn [fst].
    destruct (run_jobs_spec
                (enqueue (JobRejection (Thrown EvUiReset)) (log [EvUiReset] w)))
      as (_ & _ & ->).
    project. rewrite job_trace_app, <- !app_assoc. cbn.
    by rewrite app_nil_r.
  - intros -> ->. cbn [fst].
    match goal with
    | |- trace (run_jobs ?x) = _ => destruct (run_jobs_spec x) as (_ & _ & ->)
    end.
    project. rewrite job_trace_app, <- !app_assoc. cbn.
    by rewrite app_nil_r.
Qed.

Lemma destroy_callback_after_teardown_witness :
  trace (run_jobs (destroy (Demo.env Demo.quiet) (Some 7)
                     Demo.constructed).1) =
  trace Demo.constructed
    ++ [EvUiReset; EvSetAttribute 1 "data-plyr" "null";
        EvRemoveAttribute 1 "tabindex"; EvUnbindListeners; EvReady false]
    ++ job_trace (jobs Demo.constructed) ++ [EvCallback 7].
Proof.
  apply (destroy_callback_after_teardown (Demo.env Demo.quiet)
           Demo.constructed 1 7); reflexivity.
Defined.

(** C7, as the claim has it, fails: when [ui.reset] throws on the demo
    instance, [destroy] returns normally, the promise is rejected, and
    after all queued jobs have run the callback has not been invoked; the
    instance is still ready. *)
Lemma destroy_callback_lost :
  let env := Demo.env Demo.ui_reset_fails in
  let w' := run_jobs (destroy env (Some 7) Demo.constructed).1 in
  (destroy env (Some 7) Demo.constructed).2 = inr tt
  /\ throws env EvUiReset = true
  /\ invoked 7 (trace w') = false
  /\ jobs w' = []
  /\ ready (this w') = true.
Proof. vm_compute. repeat split; reflexivity. Qed.

(** ** The API *)

Lemma log_log (l1 l2 : list event) (w : World) :
  log l2 (log l1 w) = log (l1 ++ l2) w.
Proof. unfold log. cbn. by rewrite app_assoc. Qed.

(** Whatever future [play] hands back, its reaction is the arrow function
    of line 147. *)
Lemma play_future (env : Env) (focus : option bool) (w w1 : World)
  (fut : future) :
  play env focus w = (w1, inr (Some fut)) ->
  fut = {| on_fulfilled := play_then (default true focus) |}.
Proof.
  unfold play. intros H.
  apply bind_inr in H as (w2 & has & _ & H). cbv beta in H.
  destruct (negb has); [discriminate H|].
  apply bind_inr in H as (w3 & a & _ & H). cbv beta in H.
  apply bind_inr in H as (w4 & u & _ & H). cbv beta in H.
  apply bind_inr in H as (w5 & e & _ & H). cbv beta in H.
  apply bind_inr in H as (w6 & u' & _ & H). cbv beta in H.
  by injection H as _ <-.
Qed.

(** C4: [play] returns [null] and does nothing when the Provider has no
    [play].  Otherwise it always calls the Provider's [play] last and hands
    back a future: with the Ads block enabled and active, the play routine
    of the Ads object is called first and the Provider's [play] second (and
    not at all when the former throws); with the Ads block not both enabled
    and active, the Provider's [play] is the only call.  Every future
    [play] hands back focuses the container when it is fulfilled and
    [focus] is true or omitted, and does nothing when [focus] is false. *)
Theorem play_contract (env : Env) (w : World) (e : node)
  (focus : option bool) :
  media (this w) = MElement e ->
  let provider_play := EvMethod (OElement e) "play" [] in
  let handed_back :=
    Some {| on_fulfilled := play_then (default true focus) |} in
  (has_play (element e w) = false -> play env focus w = (w, inr None))
  /\ (has_play (element e w) = true ->
      enabled (ads (this w)) && active (ads (this w)) = true ->
      exists k,
        ads (this w) = Built k true true
        /\ (throws env (EvMethod (OSubsystem k) "play" []) = false ->
            play env focus w =
            (log [EvMethod (OSubsystem k) "play" []; provider_play] w,
             if throws env provider_play then inl (Thrown provider_play)
             else inr handed_back))
        /\ (throws env (EvMethod (OSubsystem k) "play" []) = true ->
            play env focus w =
            (log [EvMethod (OSubsystem k) "play" []] w,
             inl (Thrown (EvMethod (OSubsystem k) "play" [])))))
  /\ (has_play (element e w) = true ->
      enabled (ads (this w)) && active (ads (this w)) = false ->
      play env focus w =
      (log [provider_play] w,
       if throws env provider_play then inl (Thrown provider_play)
       else inr handed_back))
  /\ (forall w1 fut,
        play env focus w = (w1, inr (Some fut)) ->
        forall w2 c,
          container (this w2) = Some c ->
          on_fulfilled fut w2 =
          if default true focus
          then (log [EvMethod (OElement c) "focus" []] w2, inr tt)
          else (w2, inr tt)).
Proof.
  intros Hm provider_play handed_back. subst provider_play handed_back.
  split; [|split; [|split]].
  - intros Hno. unfold play.
    rewrite bind_run, (media_prop_run _ _ w e Hm), Hno. reflexivity.
  - intros Hyes Hads.
    destruct (ads (this w)) as [|k [] []] eqn:Ha; try discriminate.
    exists k. split; [reflexivity|]. split.
    + intros Hq1. unfold play.
      rewrite bind_run, (media_prop_run _ _ w e Hm), Hyes. cbn [negb].
      rewrite bind_run, gets_run. cbn [compose]. rewrite Ha.
      cbn [enabled active andb invoke].
      rewrite bind_run, call_run, Hq1.
      rewrite bind_run, (media_element_run _ e) by exact Hm.
      rewrite bind_run, call_run, log_log. cbn [app].
      by destruct (throws env (EvMethod (OElement e) "play" [])).
    + intros Hq1. unfold play.
      rewrite bind_run, (media_prop_run _ _ w e Hm), Hyes. cbn [negb].
      rewrite bind_run, gets_run. cbn [compose]. rewrite Ha.
      cbn [enabled active andb invoke].
      rewrite bind_run, call_run, Hq1. reflexivity.
  - intros Hyes Hads. unfold play.
    rewrite bind_run, (media_prop_run _ _ w e Hm), Hyes. cbn [negb].
    rewrite bind_run, gets_run. cbn [compose]. rewrite Hads.
    rewrite bind_run. cbn [mret M_ret]. cbv beta iota.
    rewrite bind_run, (media_element_run _ e) by exact Hm.
    rewrite bind_run, call_run.
    by destruct (throws env (EvMethod (OElement e) "play" [])).
  - intros w1 fut Hplay w2 c Hc.
    rewrite (play_future env focus w w1 fut Hplay). cbn [on_fulfilled].
    unfold play_then.
    destruct (default true focus); [|reflexivity].
    rewrite bind_run, gets_run. cbn [compose]. rewrite Hc. reflexivity.
Qed.

(** On the demo instance the Ads object is enabled and active: its play
    routine precedes the Provider's, and fulfilling the future handed back
    focuses element 0.  On the same page before [setup], where the Ads
    block is still the placeholder, the Provider's [play] is the only
    call. *)
Lemma play_contract_witness :
  (exists fut,
     play (Demo.env Demo.quiet) None Demo.constructed =
       (log [EvMethod (OSubsystem Ads) "play" [];
             EvMethod (OElement 1) "play" []] Demo.constructed,
        inr (Some fut))
     /\ on_fulfilled fut Demo.constructed =
        (log [EvMethod (OElement 0) "focus" []] Demo.constructed, inr tt))
  /\ play (Demo.env Demo.quiet) None
       (on_this (set_media (MElement 1)) Demo.page) =
     (log [EvMethod (OElement 1) "play" []]
        (on_this (set_media (MElement 1)) Demo.page),
      inr (Some {| on_fulfilled := play_then true |})).
Proof.
  split.
  - destruct (play_contract (Demo.env Demo.quiet) Demo.constructed 1 None
                eq_refl) as (_ & Hads & _ & Hfut).
    destruct (Hads eq_refl eq_refl) as (k & Hk & Hrun & _).
    injection Hk as <-.
    pose proof (Hrun eq_refl) as Hplay. cbn [throws Demo.env Demo.quiet] in Hplay.
    eexists. split; [exact Hplay|].
    exact (Hfut _ _ Hplay Demo.constructed 0 eq_refl).
  - destruct (play_contract (Demo.env Demo.quiet)
                (on_this (set_media (MElement 1)) Demo.page) 1 None
                eq_refl) as (_ & _ & Hplain & _).
    exact (Hplain eq_refl eq_refl).
Defined.

(** C8: on an instance whose Provider has no [pause], or is not playing,
    [pause] returns normally and leaves the whole world, the Provider
    included, exactly as it was: no call is made. *)
Theorem pause_is_noop (env : Env) (w : World) (e : node) :
  media (this w) = MElement e ->
  has_pause (element e w) = false \/ prop_playing (element e w) = false ->
  pause env w = (w, inr tt).
Proof.
  intros Hm Hcase. unfold pause, playing.
  rewrite bind_run, (media_prop_run _ _ w e Hm).
  destruct (prop_playing (element e w)) eqn:Hp; [|reflexivity].
  destruct Hcase as [Hno|Hno]; [|discriminate]. cbn [negb].
  rewrite bind_run, (media_prop_run _ _ w e Hm), Hno. reflexivity.
Qed.

(** The demo Provider is playing and has no [pause]. *)
Lemma pause_is_noop_witness :
  pause (Demo.env Demo.quiet) Demo.constructed = (Demo.constructed, inr tt).
Proof.
  apply (pause_is_noop (Demo.env Demo.quiet) Demo.constructed 1).
  - reflexivity.
  - left. reflexivity.
Defined.

(** C6, on the code: the [source] getter forwards to the Provider's
    [source]; the setter calls [change] on what that getter returns, that
    is on the value of the Provider's [source] property, with the assigned
    value as argument, and throws a TypeError when the Provider has no
    such object.  No object built by [new source(this)] is the receiver. *)
Theorem source_setter_reaches_provider (env : Env) (w : World) (e : node)
  (v : jsval) :
  media (this w) = MElement e ->
  get_source w = (w, inr (prop_source (element e w)))
  /\ set_source env v w =
     match prop_source (element e w) with
     | SrcObject true =>
         (log [EvMethod (OSourceOf e) "change" [v]] w,
          if throws env (EvMethod (OSourceOf e) "change" [v])
          then inl (Thrown (EvMethod (OSourceOf e) "change" [v]))
          else inr tt)
     | SrcObject false | SrcMissing => (w, inl TypeError)
     end.
Proof.
  intros Hm. unfold set_source, get_source.
  rewrite bind_run, (media_prop_run _ _ w e Hm).
  split; [reflexivity|].
  destruct (prop_source (element e w)) as [|[]]; try reflexivity.
  rewrite bind_run, (media_element_run _ e) by exact Hm.
  apply call_run.
Qed.

Lemma source_setter_reaches_provider_witness :
  get_source Demo.constructed
    = (Demo.constructed, inr (SrcObject true))
  /\ set_source (Demo.env Demo.quiet) (VJson (JStr "movie.mp4"))
       Demo.constructed
     = (log [EvMethod (OSourceOf 1) "change" [VJson (JStr "movie.mp4")]]
          Demo.constructed, inr tt).
Proof.
  exact (source_setter_reaches_provider (Demo.env Demo.quiet)
           Demo.constructed 1 (VJson (JStr "movie.mp4")) eq_refl).
Defined.

(** Construction over a native media element, whose [source] property is
    undefined, throws at [this.source = new source(this)]: the assignment
    runs the setter, which reads [this.source] through the getter. *)
Lemma native_element_construction_throws :
  (constructor (Demo.env Demo.quiet) (TElement 2) None Demo.page).2
    = inl TypeError
  /\ last (trace (constructor (Demo.env Demo.quiet) (TElement 2) None
                    Demo.page).1)
     = Some (EvNew Source).
Proof. vm_compute. split; reflexivity. Qed.

(** On the demo instance the object built by [new source(this)] is handed
    to the Provider's [source.change] as an argument. *)
Lemma source_object_passed_as_argument :
  EvMethod (OSourceOf 1) "change" [VObject Source] ∈ trace Demo.constructed.
Proof. vm_compute. do 11 apply list_elem_of_further. apply list_elem_of_here. Qed.

(** C10: assigning [language] does exactly what [setCaptions] does: one
    call of [captions.set] with the same value, and the same outcome. *)
Theorem language_setter_is_setCaptions (env : Env) (language : jsval)
  (w : World) :
  set_language env language w = setCaptions env language w
  /\ setCaptions env language w =
     (log [EvCaptionsSet language] w,
      if throws env (EvCaptionsSet language)
      then inl (Thrown (EvCaptionsSet language))
      else inr tt).
Proof. split; [reflexivity | apply call_run]. Qed.

(** * Further properties *)

(** ** Inversion that keeps what the environment answered *)

Lemma call_inr_quiet (env : Env) (ev : event) (w w1 : World) (u : unit) :
  call env ev w = (w1, inr u) -> w1 = log [ev] w /\ throws env ev = false.
Proof.
  rewrite call_run. destruct (throws env ev); [discriminate|].
  by intros [= <-].
Qed.

Lemma build_inr_quiet (env : Env) (k : subsystem) (w w1 : World) (b : block) :
  build env k w = (w1, inr b) ->
  w1 = log [EvNew k] w /\ b = built env k /\ throws env (EvNew k) = false.
Proof.
  unfold build. intros H. apply bind_inr in H as (w2 & u & H1 & H).
  apply call_inr_quiet in H1 as [-> Hq]. by injection H as <- <-.
Qed.

Lemma set_source_inr_quiet (env : Env) (v : jsval) (w w1 : World) (u : unit) :
  set_source env v w = (w1, inr u) ->
  exists e, media (this w) = MElement e
    /\ prop_source (element e w) = SrcObject true
    /\ throws env (EvMethod (OSourceOf e) "change" [v]) = false
    /\ w1 = log [EvMethod (OSourceOf e) "change" [v]] w.
Proof.
  unfold set_source, get_source. intros H.
  apply bind_inr in H as (w2 & s & H1 & H).
  apply media_prop_inr in H1 as (-> & Hu & Hs).
  destruct s as [|[]]; try discriminate.
  apply bind_inr in H as (w3 & e & H1 & H).
  apply media_element_inr in H1 as [-> Hm].
  apply call_inr_quiet in H as [-> Hq]. exists e. rewrite <- (Hs e Hm). done.
Qed.

Lemma container_class_inr_token (w w1 : World) (a : option json) :
  container_class w = (w1, inr a) ->
  w1 = w /\ a = class_token (config (this w))
  /\ exists v, config (this w) !! "classNames" = Some v /\ v <> JNull.
Proof.
  unfold container_class, class_token. run. cbn.
  destruct (config (this w) !! "classNames") as [[]|]; try discriminate;
    intros [= <- <-]; repeat split; eexists; split; try reflexivity;
    discriminate.
Qed.

Lemma prop_source_update (x y : node)
  (f : gmap string string -> gmap string string) (ns : gmap node Element) :
  prop_source (update_element x (with_attrs f) ns !!! y)
  = prop_source (ns !!! y).
Proof.
  unfold update_element. destruct (decide (x = y)) as [->|Hne].
  - by rewrite lookup_total_insert_eq.
  - by rewrite lookup_total_insert_ne.
Qed.

Lemma blank_at_fresh (ns : gmap node Element) (y : node) :
  <[fresh (dom ns) := blank_element]> ns !!! y = ns !!! y.
Proof.
  destruct (decide (fresh (dom ns) = y)) as [<-|Hne].
  - rewrite lookup_total_insert_eq, lookup_total_alt.
    assert (Hnone : ns !! fresh (dom ns) = None)
      by (apply not_elem_of_dom, is_fresh).
    by rewrite Hnone.
  - by rewrite lookup_total_insert_ne.
Qed.

Ltac settle_quiet H1 :=
  first
    [ apply call_inr_quiet in H1 as [-> ?]
    | apply build_inr_quiet in H1 as (-> & -> & ?)
    | apply set_source_inr_quiet in H1 as (? & ? & ? & ? & ->)
    | apply container_class_inr_token in H1 as (-> & -> & ?)
    | settle H1 ].

Ltac step_quiet H :=
  let w1 := fresh "w" in
  let a := fresh "a" in
  let H1 := fresh "Hs" in
  lazymatch type of H with
  | (_ ≫= _) _ = _ =>
      apply bind_inr in H as (w1 & a & H1 & H);
      try settle_quiet H1; cbv beta in H; project
  end.

(** Everything a successful [setup] tells. *)
Lemma setup_success (env : Env) (w w' : World) :
  setup env w = (w', inr tt) ->
  exists e v,
    media (this w) = MElement e
    /\ config (this w) !! "classNames" = Some v /\ v <> JNull
    /\ prop_source (element e w) = SrcObject true
    /\ quiet_on env
         (setup_trace e (container_for e w) (parentElement (element e w))
            (class_token (config (this w))))
    /\ trace w' =
       trace w ++ setup_trace e (container_for e w)
                    (parentElement (element e w))
                    (class_token (config (this w)))
    /\ nodes w' =
       setup_nodes e (container_for e w) (parentElement (element e w))
         (nodes w)
    /\ this w' =
       set_ready true
         (set_ads (built env Ads)
            (set_captions (built env Captions)
               (set_fullscreen (built env Fullscreen)
                  (set_container (Some (container_for e w)) (this w)))))
    /\ jobs w' = jobs w.
Proof.
  intros H. unfold setup in H.
  step H. apply media_prop_inr in Hs as (-> & Hu & Hp).
  step H. step H.
  destruct a as [c|].
  - injection Hs as <- <-.
    repeat step_quiet H. apply call_inr_quiet in H as [-> Hlast]. project.
    repeat match goal with
           | Hm : media (this w) = MElement ?a,
             Hm' : media (this w) = MElement ?b |- _ =>
               rewrite Hm in Hm'; injection Hm' as <-
           end.
    match goal with
    | Hm : media (this w) = MElement ?e |- _ =>
        rewrite Hm in *; pose proof (Hp e eq_refl) as Hpar; exists e
    end.
    match goal with
    | Hv : exists v, _ |- _ => destruct Hv as (v & Hv & Hne); exists v
    end.
    unfold container_for. rewrite <- Hpar.
    match goal with
    | Hsrc : prop_source _ = SrcObject true |- _ =>
        unfold element in Hsrc; project; rewrite !prop_source_update in Hsrc
    end.
    repeat split; try assumption.
    + unfold quiet_on. cbn. repeat constructor; assumption.
    + rewrite <- !app_assoc. reflexivity.
  - repeat step_quiet Hs. injection Hs as <- <-. project.
    repeat step_quiet H. apply call_inr_quiet in H as [-> Hlast]. project.
    repeat match goal with
           | Hm : media (this w) = MElement ?a,
             Hm' : media (this w) = MElement ?b |- _ =>
               rewrite Hm in Hm'; injection Hm' as <-
           end.
    match goal with
    | Hm : media (this w) = MElement ?e |- _ =>
        rewrite Hm in *; pose proof (Hp e eq_refl) as Hpar; exists e
    end.
    match goal with
    | Hv : exists v, _ |- _ => destruct Hv as (v & Hv & Hne); exists v
    end.
    unfold container_for. rewrite <- Hpar.
    match goal with
    | Hsrc : prop_source _ = SrcObject true |- _ =>
        unfold element in Hsrc; project;
        rewrite !prop_source_update, blank_at_fresh in Hsrc
    end.
    repeat split; try assumption.
    + unfold quiet_on. cbn. repeat constructor; assumption.
    + rewrite <- !app_assoc. reflexivity.
Qed.

(** ** Running forward when nothing throws *)

Lemma build_run (env : Env) (k : subsystem) (w : World) :
  build env k w =
  (log [EvNew k] w,
   if throws env (EvNew k) then inl (Thrown (EvNew k))
   else inr (built env k)).
Proof.
  unfold build. rewrite bind_run, call_run.
  by destruct (throws env (EvNew k)).
Qed.

Lemma set_source_run (env : Env) (v : jsval) (w : World) (e : node) :
  media (this w) = MElement e ->
  prop_source (element e w) = SrcObject true ->
  set_source env v w =
  (log [EvMethod (OSourceOf e) "change" [v]] w,
   if throws env (EvMethod (OSourceOf e) "change" [v])
   then inl (Thrown (EvMethod (OSourceOf e) "change" [v]))
   else inr tt).
Proof.
  intros Hm Hs. unfold set_source, get_source.
  rewrite bind_run, (media_prop_run _ _ w e Hm), Hs.
  rewrite bind_run, (media_element_run _ e) by exact Hm.
  apply call_run.
Qed.

Lemma container_class_run (w : World) (v : json) :
  config (this w) !! "classNames" = Some v -> v <> JNull ->
  container_class w = (w, inr (class_token (config (this w)))).
Proof.
  intros Hv Hne. unfold container_class, class_token.
  rewrite bind_run, gets_run. cbn [compose]. rewrite Hv.
  destruct v; try reflexivity. congruence.
Qed.

(** Split a hypothesis [quiet_on] into one fact per call. *)
Ltac quiet_facts Hq :=
  unfold quiet_on, setup_trace, container_trace, wiring_trace in Hq;
  cbn [app List.filter is_call] in Hq;
  repeat match type of Hq with
         | Forall _ (_ :: _) =>
             let Hx := fresh "Hquiet" in
             apply Forall_cons in Hq as [Hx Hq]
         end.

(** Run the next statement of a sequence whose outcome is known. *)
Ltac forward e :=
  rewrite bind_run;
  first
    [ rewrite (media_prop_run _ _ _ e) by (project; assumption)
    | rewrite (media_element_run _ e) by (project; assumption)
    | rewrite (set_source_run _ _ _ e)
        by (unfold element; project;
            rewrite ?prop_source_update, ?blank_at_fresh; assumption)
    | rewrite call_run
    | rewrite build_run
    | erewrite container_class_run by (project; eassumption)
    | rewrite setAttribute_run
    | rewrite assign_ready_run
    | rewrite assign_run
    | rewrite gets_run
    | rewrite createElement_run ];
  cbv beta iota; project;
  repeat match goal with
         | Hm : media (this ?w) = MElement _ |- context [media (this ?w)] =>
             rewrite Hm
         end;
  repeat match goal with
         | Hq : throws ?env ?ev = false |- context [throws ?env ?ev] =>
             rewrite Hq
         end;
  cbv beta iota.

(** [setup] succeeds as soon as [this.media] is an element, the
    configuration has class names, the Provider's [source] has a [change],
    and no collaborator throws. *)
Lemma setup_runs (env : Env) (w : World) (e : node) (v : json) :
  media (this w) = MElement e ->
  config (this w) !! "classNames" = Some v -> v <> JNull ->
  prop_source (element e w) = SrcObject true ->
  quiet_on env
    (setup_trace e (container_for e w) (parentElement (element e w))
       (class_token (config (this w)))) ->
  exists w', setup env w = (w', inr tt).
Proof.
  intros Hm Hv Hne Hsrc Hq. unfold setup, container_for in *.
  destruct (parentElement (element e w)) as [c|] eqn:Hpar.
  - quiet_facts Hq.
    forward e. rewrite Hpar. forward e.
    rewrite bind_run. cbn [mret M_ret]. cbv beta iota.
    repeat forward e.
    rewrite call_run.
    match goal with
    | Hx : throws env (EvTriggerEvent _ _) = false |- _ => rewrite Hx
    end.
    eexists. reflexivity.
  - quiet_facts Hq.
    forward e. rewrite Hpar. forward e.
    rewrite bind_run.
    repeat forward e.
    cbn [mret M_ret]. cbv beta iota.
    repeat forward e.
    rewrite call_run.
    match goal with
    | Hx : throws env (EvTriggerEvent _ _) = false |- _ => rewrite Hx
    end.
    eexists. reflexivity.
Qed.

(** ** Construction, in full *)

Lemma resolve_bound (env : Env) (t : target) (w w1 : World) (u : unit) :
  resolve env t w = (w1, inr u) ->
  exists m, w1 = on_this (set_media m) w
    /\ forall e, m = MElement e <-> bound_element env t = Some e.
Proof.
  unfold resolve, bound_element. destruct t as [s|e|l|l|l].
  - destruct (querySelectorAll env s) as [[|e l]|]; try discriminate;
      rewrite assign_run; intros [= <-]; eexists; split;
      try reflexivity; intros e'; cbn; split; congruence.
  - rewrite assign_run; intros [= <-]; eexists; split;
      try reflexivity; intros e'; split; congruence.
  - rewrite assign_run; intros [= <-]; eexists; split; try reflexivity.
    intros e'; destruct l; cbn; split; congruence.
  - rewrite assign_run; intros [= <-]; eexists; split; try reflexivity.
    intros e'; destruct (window_jQuery env), l; cbn; split; congruence.
  - rewrite assign_run; intros [= <-]; eexists; split; try reflexivity.
    intros e'; split; congruence.
Qed.

Lemma resolve_run (env : Env) (t : target) (w : World) (e : node) :
  bound_element env t = Some e ->
  resolve env t w = (on_this (set_media (MElement e)) w, inr tt).
Proof.
  unfold resolve, bound_element. destruct t as [s|e'|l|l|l].
  - destruct (querySelectorAll env s) as [[|e' l]|]; try discriminate.
    by intros [= ->].
  - by intros [= ->].
  - destruct l; try discriminate. by intros [= ->].
  - destruct (window_jQuery env); try discriminate.
    destruct l; try discriminate. by intros [= ->].
  - discriminate.
Qed.

Lemma parsed_fragment_ext (env : Env) (w1 w2 : World) :
  media (this w1) = media (this w2) -> nodes w1 = nodes w2 ->
  parsed_fragment env w1 = parsed_fragment env w2.
Proof.
  unfold parsed_fragment, fragment_text, element. by intros -> ->.
Qed.

Lemma element_ext (e : node) (w1 w2 : World) :
  nodes w1 = nodes w2 -> element e w1 = element e w2.
Proof. unfold element. by intros ->. Qed.

Lemma container_for_ext (e : node) (w1 w2 : World) :
  nodes w1 = nodes w2 -> container_for e w1 = container_for e w2.
Proof. unfold container_for, element. by intros ->. Qed.

(** The world in which the constructor calls [setup], over element [e]. *)
Lemma before_setup_facts (env : Env) (o : option json) (e : node)
  (w w0 : World) :
  w0 =
  log [EvNew Listeners]
    (on_this (set_ads Placeholder)
       (on_this (set_airplay Placeholder)
          (on_this (set_pip Placeholder)
             (on_this (set_fullscreen Placeholder)
                (on_this (set_captions Placeholder)
                   (on_this (set_container None)
                      (on_this (set_config (construction_config env o e w))
                         (on_this (set_media (MElement e))
                            (on_this (set_touch (support_touch env))
                               (on_this (set_failed false)
                                  (on_this (set_loading false)
                                     (on_this (set_ready false)
                                        (log [EvReady false] w))))))))))))) ->
  media (this w0) = MElement e
  /\ config (this w0) = construction_config env o e w
  /\ nodes w0 = nodes w
  /\ jobs w0 = jobs w
  /\ trace w0 = trace w ++ [EvReady false; EvNew Listeners]
  /\ forall c,
       set_ready true
         (set_ads (built env Ads)
            (set_captions (built env Captions)
               (set_fullscreen (built env Fullscreen)
                  (set_container (Some c) (this w0)))))
       = constructed_this env e c (construction_config env o e w).
Proof.
  intros ->. split; [reflexivity|]. split; [reflexivity|].
  split; [reflexivity|]. split; [reflexivity|]. split.
  - cbn. by rewrite <- app_assoc.
  - intros c. generalize (construction_config env o e w). intros cfg.
    destruct w as [ns p tr js]. destruct p. reflexivity.
Qed.

Lemma flags_fragment (env : Env) (m : mediaval) (w : World) :
  parsed_fragment env
    (on_this (set_media m)
       (on_this (set_touch (support_touch env))
          (on_this (set_failed false)
             (on_this (set_loading false)
                (on_this (set_ready false) (log [EvReady false] w))))))
  = parsed_fragment env (on_this (set_media m) w).
Proof. apply parsed_fragment_ext; reflexivity. Qed.

(** Everything a successful construction tells. *)
Lemma constructor_success (env : Env) (t : target) (o : option json)
  (w w' : World) :
  constructor env t o w = (w', inr tt) ->
  exists e v,
    bound_element env t = Some e
    /\ construction_config env o e w !! "classNames" = Some v /\ v <> JNull
    /\ prop_source (element e w) = SrcObject true
    /\ quiet_on env (construction_trace env o e w)
    /\ trace w' = trace w ++ construction_trace env o e w
    /\ nodes w' =
       setup_nodes e (container_for e w) (parentElement (element e w))
         (nodes w)
    /\ this w' =
       constructed_this env e (container_for e w)
         (construction_config env o e w)
    /\ jobs w' = jobs w.
Proof.
  intros H. unfold constructor in H.
  do 5 step H. apply resolve_bound in Hs as (m & -> & Hbound).
  step H. rewrite resolve_config_run, flags_fragment in Hs.
  injection Hs as <- <-.
  do 6 step H. step_quiet H.
  match type of H with
  | setup env ?W = _ => remember W as w0 eqn:Hw0
  end.
  apply setup_success in H
    as (e & v & Hm & Hv & Hne & Hsrc & Hq & Htr & Hn & Ht & Hj).
  assert (Hmedia : media (this w0) = m) by (rewrite Hw0; reflexivity).
  rewrite Hm in Hmedia. subst m.
  destruct (before_setup_facts env o e w w0 Hw0)
    as (_ & Hcfg & Hnodes & Hjobs & Htrace & Hthis).
  rewrite (element_ext e w0 w Hnodes) in *.
  rewrite (container_for_ext e w0 w Hnodes) in *.
  rewrite Hcfg in *. rewrite Hnodes in Hn. rewrite Hjobs in Hj.
  rewrite Hthis in Ht. rewrite Htrace in Htr.
  exists e, v. unfold construction_trace.
  split; [by apply Hbound|].
  split; [exact Hv|]. split; [exact Hne|]. split; [exact Hsrc|].
  split.
  { unfold quiet_on in *. cbn [app List.filter is_call].
    constructor; assumption. }
  split; [rewrite Htr, <- !app_assoc; reflexivity|].
  split; [exact Hn|].
  split; [exact Ht | exact Hj].
Qed.

(** Construction succeeds as soon as the target resolves to an element,
    the merged configuration has class names, the Provider's [source] has
    a [change], and no collaborator throws. *)
Lemma constructor_runs (env : Env) (t : target) (o : option json)
  (w : World) (e : node) (v : json) :
  bound_element env t = Some e ->
  construction_config env o e w !! "classNames" = Some v -> v <> JNull ->
  prop_source (element e w) = SrcObject true ->
  quiet_on env (construction_trace env o e w) ->
  exists w', constructor env t o w = (w', inr tt).
Proof.
  intros Hb Hv Hne Hsrc Hq. unfold constructor.
  unfold quiet_on, construction_trace in Hq.
  cbn [app List.filter is_call] in Hq.
  apply Forall_cons in Hq as [Hl Hq].
  rewrite bind_run, assign_ready_run. cbv beta iota.
  do 3 (rewrite bind_run, assign_run; cbv beta iota).
  rewrite bind_run, (resolve_run env t _ e Hb). cbv beta iota.
  rewrite bind_run, resolve_config_run, flags_fragment. cbv beta iota.
  do 6 (rewrite bind_run, assign_run; cbv beta iota).
  rewrite bind_run, call_run, Hl. cbv beta iota.
  match goal with
  | |- exists w', setup env ?W = _ => remember W as w0 eqn:Hw0
  end.
  destruct (before_setup_facts env o e w w0 Hw0)
    as (Hmedia & Hcfg & Hnodes & _).
  apply (setup_runs env w0 e v Hmedia).
  - rewrite Hcfg. exact Hv.
  - exact Hne.
  - rewrite (element_ext e w0 w Hnodes). exact Hsrc.
  - rewrite (element_ext e w0 w Hnodes), (container_for_ext e w0 w Hnodes),
      Hcfg.
    exact Hq.
Qed.

(** ** Construction: when it succeeds and what it leaves *)

(** X1: construction succeeds exactly when the target resolves to an
    element, the merged configuration has a [classNames] entry other than
    [null], the [source] property of that element is an object with a
    [change] method, and none of the calls into collaborators that a
    successful construction makes throws. *)
Theorem construction_succeeds_iff (env : Env) (t : target)
  (options : option json) (w : World) :
  (exists w', constructor env t options w = (w', inr tt)) <->
  (exists e v,
     bound_element env t = Some e
     /\ construction_config env options e w !! "classNames" = Some v
     /\ v <> JNull
     /\ prop_source (element e w) = SrcObject true
     /\ quiet_on env (construction_trace env options e w)).
Proof.
  split.
  - intros [w' H].
    apply constructor_success in H
      as (e & v & Hb & Hv & Hne & Hsrc & Hq & _).
    exists e, v. repeat split; assumption.
  - intros (e & v & Hb & Hv & Hne & Hsrc & Hq).
    by apply (constructor_runs env t options w e v).
Qed.

(** X2: a successful construction makes its effects in one fixed order:
    [ready = false], the Listeners object, the container (created and
    wrapped only when the element has no parent element), the class and
    the three attributes of the container, the tab index of the element,
    [listeners.bind()], [ui.setup], [media.setup], then Source, Fullscreen,
    Captions, Controls, Ads, PreviewThumbnails, Storage and Console, and
    only then [ready = true] and the [ready] event. *)
Theorem construction_effect_order (env : Env) (t : target)
  (options : option json) (w w' : World) :
  constructor env t options w = (w', inr tt) ->
  exists e,
    bound_element env t = Some e
    /\ trace w' = trace w ++ construction_trace env options e w.
Proof.
  intros H.
  apply constructor_success in H as (e & v & Hb & _ & _ & _ & _ & Htr & _).
  exists e. split; assumption.
Qed.

Lemma construction_effect_order_witness :
  exists e,
    bound_element (Demo.env Demo.quiet) (TSelector "#player") = Some e
    /\ trace Demo.constructed =
       trace Demo.page
         ++ construction_trace (Demo.env Demo.quiet) None e Demo.page.
Proof.
  exact (construction_effect_order (Demo.env Demo.quiet)
           (TSelector "#player") None Demo.page Demo.constructed
           demo_constructed).
Defined.

(** X3: the instance a successful construction leaves is bound to the
    first element the target resolves to, holds the configuration merged
    with that element's fragment, has the parent of the element (or the
    newly created element) as container, objects in place of the
    [captions], [fullscreen] and [ads] placeholders, the [pip] and
    [airplay] placeholders untouched, and [ready] set; the job queue is as
    it was. *)
Theorem constructed_instance_state (env : Env) (t : target)
  (options : option json) (w w' : World) :
  constructor env t options w = (w', inr tt) ->
  exists e,
    bound_element env t = Some e
    /\ this w' =
       constructed_this env e (container_for e w)
         (construction_config env options e w)
    /\ jobs w' = jobs w.
Proof.
  intros H.
  apply constructor_success in H
    as (e & v & Hb & _ & _ & _ & _ & _ & _ & Ht & Hj).
  exists e. repeat split; assumption.
Qed.

Lemma constructed_instance_state_witness :
  exists e,
    bound_element (Demo.env Demo.quiet) (TSelector "#player") = Some e
    /\ this Demo.constructed =
       constructed_this (Demo.env Demo.quiet) e (container_for e Demo.page)
         (construction_config (Demo.env Demo.quiet) None e Demo.page)
    /\ jobs Demo.constructed = jobs Demo.page.
Proof.
  exact (constructed_instance_state (Demo.env Demo.quiet)
           (TSelector "#player") None Demo.page Demo.constructed
           demo_constructed).
Defined.

Lemma update_element_eq (x : node) (f : Element -> Element)
  (ns : gmap node Element) :
  update_element x f ns !!! x = f (ns !!! x).
Proof. unfold update_element. by rewrite lookup_total_insert_eq. Qed.

Lemma update_element_ne (x y : node) (f : Element -> Element)
  (ns : gmap node Element) :
  x <> y -> update_element x f ns !!! y = ns !!! y.
Proof. intros Hne. unfold update_element. by rewrite lookup_total_insert_ne. Qed.

Lemma setup_nodes_tabindex (e c : node) (parent : option node)
  (ns : gmap node Element) :
  attrs (setup_nodes e c parent ns !!! e) !! "tabindex" = Some "-1".
Proof.
  unfold setup_nodes. rewrite update_element_eq. cbn [attrs with_attrs].
  apply lookup_insert_eq.
Qed.

Lemma setup_nodes_role (e c : node) (parent : option node)
  (ns : gmap node Element) :
  attrs (setup_nodes e c parent ns !!! c) !! "role" = Some "application".
Proof.
  unfold setup_nodes. destruct (decide (e = c)) as [->|Hne].
  - rewrite !update_element_eq. cbn [attrs with_attrs].
    rewrite lookup_insert_ne by discriminate. apply lookup_insert_eq.
  - rewrite update_element_ne by exact Hne.
    rewrite update_element_eq. cbn [attrs with_attrs].
    apply lookup_insert_eq.
Qed.

(** X4: the attribute writes of a successful construction leave the target
    element with [tabindex="-1"] and the container with
    [role="application"]. *)
Theorem construction_tags_elements (env : Env) (t : target)
  (options : option json) (w w' : World) :
  constructor env t options w = (w', inr tt) ->
  exists e c,
    media (this w') = MElement e /\ container (this w') = Some c
    /\ attrs (element e w') !! "tabindex" = Some "-1"
    /\ attrs (element c w') !! "role" = Some "application".
Proof.
  intros H.
  apply constructor_success in H
    as (e & v & Hb & _ & _ & _ & _ & _ & Hn & Ht & _).
  exists e, (container_for e w). unfold element. rewrite Ht, Hn.
  split; [reflexivity|]. split; [reflexivity|].
  split; [apply setup_nodes_tabindex | apply setup_nodes_role].
Qed.

Lemma construction_tags_elements_witness :
  exists e c,
    media (this Demo.constructed) = MElement e
    /\ container (this Demo.constructed) = Some c
    /\ attrs (element e Demo.constructed) !! "tabindex" = Some "-1"
    /\ attrs (element c Demo.constructed) !! "role" = Some "application".
Proof.
  exact (construction_tags_elements (Demo.env Demo.quiet)
           (TSelector "#player") None Demo.page Demo.constructed
           demo_constructed).
Defined.

(** X5: a collection that is neither a NodeList nor a jQuery object
    recognised through [window.jQuery] never yields an instance, however
    many elements it holds: its first element is not taken, and the
    constructor throws. *)
Theorem unrecognised_collection_fails (env : Env) (t : target)
  (l : list node) (options : option json) (w : World) :
  t = TOther l \/ (t = TJQuery l /\ window_jQuery env = false) ->
  exists w' err, constructor env t options w = (w', inl err).
Proof.
  intros Ht.
  destruct (constructor env t options w) as [w' [err|[]]] eqn:H; [eauto|].
  apply constructor_success in H as (e & v & Hb & _).
  destruct Ht as [->|[-> Hj]]; cbn in Hb; [|rewrite Hj in Hb]; discriminate.
Qed.

(** An array holding the demo media element is refused. *)
Lemma unrecognised_collection_fails_witness :
  exists w' err,
    constructor (Demo.env Demo.quiet) (TOther [1]) None Demo.page
    = (w', inl err).
Proof.
  apply (unrecognised_collection_fails (Demo.env Demo.quiet) (TOther [1])
           [1] None Demo.page).
  left. reflexivity.
Defined.

(** ** Teardown: what it leaves alone, and doing it twice *)

(** X6: whatever its outcome, [destroy] itself writes attributes of the
    target element only, never of the container or of any other element:
    either none at all (when [ui.reset] throws) or [data-plyr] and then
    [tabindex]; and it creates no element. *)
Theorem destroy_writes_target_only (env : Env) (w : World) (e : node)
  (callback : option nat) :
  media (this w) = MElement e ->
  exists evs,
    trace (destroy env callback w).1 = trace w ++ evs
    /\ created evs = []
    /\ (dom_writes evs = [(e, "data-plyr"); (e, "tabindex")]
        \/ (dom_writes evs = [] /\ throws env EvUiReset = true)).
Proof.
  intros Hm. unfold destroy. rewrite (teardown_run env w e Hm).
  destruct (throws env EvUiReset).
  - exists [EvUiReset]. repeat split. right. split; reflexivity.
  - destruct (throws env EvUnbindListeners).
    + exists [EvUiReset; EvSetAttribute e "data-plyr" "null";
              EvRemoveAttribute e "tabindex"; EvUnbindListeners].
      split; [cbn; by rewrite <- !app_assoc|].
      split; [reflexivity | left; reflexivity].
    + exists [EvUiReset; EvSetAttribute e "data-plyr" "null";
              EvRemoveAttribute e "tabindex"; EvUnbindListeners;
              EvReady false].
      split; [destruct callback; cbn; by rewrite <- !app_assoc|].
      split; [reflexivity | left; reflexivity].
Qed.

Lemma destroy_writes_target_only_witness :
  exists evs,
    trace (destroy (Demo.env Demo.quiet) (Some 7) Demo.constructed).1
      = trace Demo.constructed ++ evs
    /\ created evs = []
    /\ (dom_writes evs = [(1, "data-plyr"); (1, "tabindex")]
        \/ (dom_writes evs = []
            /\ throws (Demo.env Demo.quiet) EvUiReset = true)).
Proof.
  exact (destroy_writes_target_only (Demo.env Demo.quiet) Demo.constructed
           1 (Some 7) eq_refl).
Defined.

(** The five effects of a teardown that does not throw. *)
Lemma torn_down_trace (e : node) (w : World) :
  trace (torn_down e w) =
  trace w ++ [EvUiReset; EvSetAttribute e "data-plyr" "null";
              EvRemoveAttribute e "tabindex"; EvUnbindListeners;
              EvReady false].
Proof. unfold torn_down. cbn. by rewrite <- !app_assoc. Qed.

Lemma torn_down_jobs (e : node) (w : World) :
  jobs (torn_down e w) = jobs w.
Proof. reflexivity. Qed.

Lemma enqueue_trace (j : job) (w : World) : trace (enqueue j w) = trace w.
Proof. reflexivity. Qed.

Lemma enqueue_jobs (j : job) (w : World) : jobs (enqueue j w) = jobs w ++ [j].
Proof. reflexivity. Qed.

(** X7: [destroy] is not guarded by [ready]: called twice in a row it runs
    the whole teardown twice, and since callbacks run as promise jobs,
    both teardowns are over before the first callback runs; the callbacks
    then run in the order of the calls. *)
Theorem destroy_twice (env : Env) (w : World) (e : node) (cb1 cb2 : nat) :
  media (this w) = MElement e ->
  throws env EvUiReset = false ->
  throws env EvUnbindListeners = false ->
  let steps := [EvUiReset; EvSetAttribute e "data-plyr" "null";
                EvRemoveAttribute e "tabindex"; EvUnbindListeners;
                EvReady false] in
  let w1 := (destroy env (Some cb1) w).1 in
  let w2 := (destroy env (Some cb2) w1).1 in
  ready (this w1) = false
  /\ trace (run_jobs w2) =
     trace w ++ steps ++ steps ++ job_trace (jobs w)
       ++ [EvCallback cb1; EvCallback cb2].
Proof.
  intros Hm H1 H2 steps w1 w2. subst w1 w2.
  rewrite (destroy_run env w e (Some cb1) Hm H1 H2). cbn [fst].
  split; [reflexivity|].
  rewrite (destroy_run env _ e (Some cb2)) by (assumption || exact Hm).
  cbn [fst].
  match goal with
  | |- trace (run_jobs ?x) = _ => destruct (run_jobs_spec x) as (_ & _ & ->)
  end.
  rewrite !enqueue_trace, !enqueue_jobs, !torn_down_trace, !torn_down_jobs.
  rewrite !enqueue_trace, !enqueue_jobs, !torn_down_trace, !torn_down_jobs.
  rewrite !job_trace_app, <- !app_assoc. reflexivity.
Qed.

Lemma destroy_twice_witness :
  let steps := [EvUiReset; EvSetAttribute 1 "data-plyr" "null";
                EvRemoveAttribute 1 "tabindex"; EvUnbindListeners;
                EvReady false] in
  let w1 := (destroy (Demo.env Demo.quiet) (Some 7) Demo.constructed).1 in
  let w2 := (destroy (Demo.env Demo.quiet) (Some 8) w1).1 in
  ready (this w1) = false
  /\ trace (run_jobs w2) =
     trace Demo.constructed ++ steps ++ steps
       ++ job_trace (jobs Demo.constructed)
       ++ [EvCallback 7; EvCallback 8].
Proof.
  apply (destroy_twice (Demo.env Demo.quiet) Demo.constructed 1 7 8);
    reflexivity.
Defined.

(** ** More of the API *)

(** X8: when the Provider has a [play] and the Ads block is not both
    enabled and active, [play] makes exactly one call, the Provider's
    [play]: the Ads object is not touched. *)
Theorem play_without_active_ads (env : Env) (w : World) (e : node)
  (focus : option bool) :
  media (this w) = MElement e ->
  has_play (element e w) = true ->
  enabled (ads (this w)) && active (ads (this w)) = false ->
  play env focus w =
  (log [EvMethod (OElement e) "play" []] w,
   if throws env (EvMethod (OElement e) "play" [])
   then inl (Thrown (EvMethod (OElement e) "play" []))
   else inr (Some {| on_fulfilled := play_then (default true focus) |})).
Proof.
  intros Hm Hplay Hads. unfold play.
  rewrite bind_run, (media_prop_run _ _ w e Hm), Hplay. cbn [negb].
  rewrite bind_run, gets_run. cbn [compose]. rewrite Hads.
  rewrite bind_run. cbn [mret M_ret]. cbv beta iota.
  rewrite bind_run, (media_element_run _ e) by exact Hm.
  rewrite bind_run, call_run.
  by destruct (throws env (EvMethod (OElement e) "play" [])).
Qed.

(** Before [setup] has run the Ads block of the demo page is still the
    placeholder. *)
Lemma play_without_active_ads_witness :
  let w := on_this (set_media (MElement 1)) Demo.page in
  play (Demo.env Demo.quiet) (Some false) w =
  (log [EvMethod (OElement 1) "play" []] w,
   inr (Some {| on_fulfilled := play_then false |})).
Proof.
  exact (play_without_active_ads (Demo.env Demo.quiet)
           (on_this (set_media (MElement 1)) Demo.page) 1 (Some false)
           eq_refl eq_refl eq_refl).
Defined.

(** X9: when the Provider is playing and has a [pause], [pause] makes
    exactly one call, the Provider's [pause], and changes nothing else. *)
Theorem pause_calls_provider (env : Env) (w : World) (e : node) :
  media (this w) = MElement e ->
  prop_playing (element e w) = true ->
  has_pause (element e w) = true ->
  pause env w =
  (log [EvMethod (OElement e) "pause" []] w,
   if throws env (EvMethod (OElement e) "pause" [])
   then inl (Thrown (EvMethod (OElement e) "pause" []))
   else inr tt).
Proof.
  intros Hm Hp Hpause. unfold pause, playing.
  rewrite bind_run, (media_prop_run _ _ w e Hm), Hp. cbn [negb].
  rewrite bind_run, (media_prop_run _ _ w e Hm), Hpause. cbn [negb].
  rewrite bind_run, (media_element_run _ e) by exact Hm.
  apply call_run.
Qed.

(** A page on which element 3 is playing and has a [pause]. *)
Lemma pause_calls_provider_witness :
  let w := on_nodes <[3 := {| attrs := ∅; parentElement := None;
                              has_play := true; has_pause := true;
                              prop_playing := true;
                              prop_source := SrcMissing |}]>
             (on_this (set_media (MElement 3)) Demo.page) in
  pause (Demo.env Demo.quiet) w =
  (log [EvMethod (OElement 3) "pause" []] w, inr tt).
Proof.
  intros w.
  exact (pause_calls_provider (Demo.env Demo.quiet) w 3
           eq_refl eq_refl eq_refl).
Defined.

(** X10: the [autoplay] accessors work on the configuration alone: what
    the setter stores the getter reads back, every other key of the
    configuration is kept, and neither the document (hence the Provider)
    nor the trace of effects changes. *)
Theorem autoplay_roundtrip (autoplay : json) (w : World) :
  let w' := (set_autoplay autoplay w).1 in
  (set_autoplay autoplay w).2 = inr tt
  /\ get_autoplay w' = (w', inr (Some autoplay))
  /\ (forall k, k <> "autoplay" ->
                config (this w') !! k = config (this w) !! k)
  /\ nodes w' = nodes w /\ trace w' = trace w /\ jobs w' = jobs w
  /\ media (this w') = media (this w)
  /\ ready (this w') = ready (this w).
Proof.
  unfold set_autoplay, get_autoplay.
  rewrite bind_run, gets_run, assign_run.
  cbn [fst snd compose on_this this config set_config nodes trace jobs
       media ready].
  split; [reflexivity|]. split.
  - rewrite gets_run. cbn [on_this this config set_config].
    by rewrite lookup_insert_eq.
  - split; [|repeat split; reflexivity].
    intros k Hk. by rewrite lookup_insert_ne by congruence.
Qed.

(** X11: on every constructed instance [toggleFullscreen] reaches the
    Fullscreen object: it calls [exit()] when that object is active while
    the document has no fullscreen element, and [toggle(input)] in every
    other case; nothing else happens. *)
Theorem toggleFullscreen_on_instance (env : Env) (t : target)
  (options : option json) (w w' : World) (fullscreenElement : option node)
  (input : jsval) :
  constructor env t options w = (w', inr tt) ->
  let desync := (built_state env Fullscreen).2
                && match fullscreenElement with
                   | None => true
                   | Some _ => false
                   end in
  let ev := if desync then EvMethod (OSubsystem Fullscreen) "exit" []
            else EvMethod (OSubsystem Fullscreen) "toggle" [input] in
  toggleFullscreen env fullscreenElement input w' =
  (log [ev] w', if throws env ev then inl (Thrown ev) else inr tt).
Proof.
  intros H desync ev. subst desync ev.
  apply constructor_success in H
    as (e & v & _ & _ & _ & _ & _ & _ & _ & Ht & _).
  unfold toggleFullscreen. rewrite bind_run, gets_run. cbn [compose].
  rewrite Ht. cbn [fullscreen constructed_this built active invoke].
  destruct ((built_state env Fullscreen).2), fullscreenElement;
    cbn [andb]; apply call_run.
Qed.

Lemma toggleFullscreen_on_instance_witness :
  toggleFullscreen (Demo.env Demo.quiet) None (VJson (JBool true))
    Demo.constructed =
  (log [EvMethod (OSubsystem Fullscreen) "toggle" [VJson (JBool true)]]
     Demo.constructed, inr tt).
Proof.
  exact (toggleFullscreen_on_instance (Demo.env Demo.quiet)
           (TSelector "#player") None Demo.page Demo.constructed None
           (VJson (JBool true)) demo_constructed).
Defined.



(** ** [ready] and failed constructions *)

Lemma bind_inl {A B} (m : M A) (f : A -> M B) (w w' : World) (e : exn) :
  (m ≫= f) w = (w', inl e) ->
  m w = (w', inl e) \/ exists w1 a, m w = (w1, inr a) /\ f a w1 = (w', inl e).
Proof.
  rewrite bind_run. destruct (m w) as [w1 [e1|a]]; intros H.
  - left. by injection H as <- <-.
  - right. eauto.
Qed.

Lemma call_inl (env : Env) (ev : event) (w w' : World) (e : exn) :
  call env ev w = (w', inl e) -> w' = log [ev] w.
Proof. rewrite call_run. by intros [= <- _]. Qed.

Lemma build_inl (env : Env) (k : subsystem) (w w' : World) (e : exn) :
  build env k w = (w', inl e) -> w' = log [EvNew k] w.
Proof. rewrite build_run. by intros [= <- _]. Qed.

Lemma media_element_inl (w w' : World) (e : exn) :
  media_element w = (w', inl e) -> w' = w.
Proof.
  unfold media_element. rewrite bind_run, gets_run. cbn [compose].
  destruct (media (this w)); by intros [= <-].
Qed.

Lemma media_prop_inl {A} (d : A) (f : Element -> A) (w w' : World)
  (e : exn) :
  media_prop d f w = (w', inl e) -> w' = w.
Proof.
  unfold media_prop. rewrite bind_run, gets_run. cbn [compose].
  destruct (media (this w)); by intros [= <-].
Qed.

Lemma container_class_inl (w w' : World) (e : exn) :
  container_class w = (w', inl e) -> w' = w.
Proof.
  unfold container_class. rewrite bind_run, gets_run. cbn [compose].
  destruct (config (this w) !! "classNames") as [[]|]; by intros [= <-].
Qed.

Lemma set_source_inl (env : Env) (v : jsval) (w w' : World) (e : exn) :
  set_source env v w = (w', inl e) -> this w' = this w.
Proof.
  unfold set_source, get_source. intros H.
  apply bind_inl in H as [H | (w1 & s & H1 & H)].
  - by apply media_prop_inl in H as ->.
  - apply media_prop_inr in H1 as (-> & _ & _).
    destruct s as [|[]]; try (by injection H as <-).
    apply bind_inl in H as [H | (w2 & x & H2 & H)].
    + by apply media_element_inl in H as ->.
    + apply media_element_inr in H2 as [-> _].
      by apply call_inl in H as ->.
Qed.

Lemma resolve_inl (env : Env) (t : target) (w w' : World) (e : exn) :
  resolve env t w = (w', inl e) -> w' = w.
Proof.
  unfold resolve. destruct t; try (rewrite assign_run; discriminate).
  destruct (querySelectorAll env s);
    [rewrite assign_run; discriminate | by intros [= <-]].
Qed.

(** The statement that failed, and what it left of the instance. *)
Ltac fail_here H Hr :=
  lazymatch type of H with
  | call _ _ _ = _ => apply call_inl in H; subst
  | build _ _ _ = _ => apply build_inl in H; subst
  | media_element _ = _ => apply media_element_inl in H; subst
  | media_prop _ _ _ = _ => apply media_prop_inl in H; subst
  | container_class _ = _ => apply container_class_inl in H; subst
  | resolve _ _ _ = _ => apply resolve_inl in H; subst
  | set_source _ _ _ = _ => apply set_source_inl in H; rewrite H in Hr
  | setAttribute _ _ _ _ = _ => rewrite setAttribute_run in H; discriminate H
  | assign_ready _ _ = _ => rewrite assign_ready_run in H; discriminate H
  | assign _ _ = _ => rewrite assign_run in H; discriminate H
  | gets _ _ = _ => rewrite gets_run in H; discriminate H
  | createElement _ = _ => rewrite createElement_run in H; discriminate H
  | resolve_config _ _ _ = _ =>
      rewrite resolve_config_run in H; discriminate H
  end.

(** One statement of a sequence that ends in an exception: either it is
    the one that threw, which the instance not being ready rules out, or
    it ran. *)
Ltac fstep H Hr :=
  let w1 := fresh "w" in
  let a := fresh "a" in
  let H1 := fresh "Hs" in
  lazymatch type of H with
  | (_ ≫= _) _ = _ =>
      apply bind_inl in H as [H | (w1 & a & H1 & H)];
      [ fail_here H Hr; project; congruence
      | try settle_quiet H1; cbv beta in H; project ]
  end.

(** However [setup] ends, [ready] has become true only if all of its
    effects up to the [ready] event were made. *)
Lemma setup_ready (env : Env) (w w' : World) (r : exn + unit) :
  setup env w = (w', r) ->
  ready (this w) = false -> ready (this w') = true ->
  exists e,
    media (this w) = MElement e
    /\ trace w' =
       trace w ++ setup_trace e (container_for e w)
                    (parentElement (element e w))
                    (class_token (config (this w))).
Proof.
  intros H Hw Hr. destruct r as [err|[]].
  2:{ apply setup_success in H as (e & v & Hm & _ & _ & _ & _ & Htr & _).
      eauto. }
  unfold setup in H.
  apply bind_inl in H as [H | (w1 & a & Hs & H)].
  { apply media_prop_inl in H as ->. congruence. }
  apply media_prop_inr in Hs as (-> & Hu & Hp). cbv beta in H.
  fstep H Hr.
  apply bind_inl in H as [H | (w2 & c & Hs & H)].
  { destruct a as [c|]; [discriminate H|].
    repeat fstep H Hr. discriminate H. }
  cbv beta in H.
  destruct a as [c'|].
  - injection Hs as <- <-.
    repeat fstep H Hr. apply call_inl in H as ->. project.
    repeat match goal with
           | Hm : media (this w) = MElement ?a,
             Hm' : media (this w) = MElement ?b |- _ =>
               rewrite Hm in Hm'; injection Hm' as <-
           end.
    match goal with
    | Hm : media (this w) = MElement ?e |- _ =>
        rewrite Hm in *; pose proof (Hp e eq_refl) as Hpar; exists e
    end.
    unfold container_for. rewrite <- Hpar.
    split; [reflexivity|]. rewrite <- !app_assoc. reflexivity.
  - repeat step_quiet Hs. injection Hs as <- <-. project.
    repeat fstep H Hr. apply call_inl in H as ->. project.
    repeat match goal with
           | Hm : media (this w) = MElement ?a,
             Hm' : media (this w) = MElement ?b |- _ =>
               rewrite Hm in Hm'; injection Hm' as <-
           end.
    match goal with
    | Hm : media (this w) = MElement ?e |- _ =>
        rewrite Hm in *; pose proof (Hp e eq_refl) as Hpar; exists e
    end.
    unfold container_for. rewrite <- Hpar.
    split; [reflexivity|]. rewrite <- !app_assoc. reflexivity.
Qed.

(** X13: however the constructor ends, normally or by an exception, the
    instance is left with [ready] true only if every effect of a complete
    construction was made before: listeners bound, every Subsystem
    constructed, in the order of X2.  (The only exception that leaves a
    ready instance behind is one thrown while the [ready] event itself is
    triggered.) *)
Theorem ready_only_when_wired (env : Env) (t : target)
  (options : option json) (w w' : World) (r : exn + unit) :
  constructor env t options w = (w', r) ->
  ready (this w') = true ->
  exists e,
    bound_element env t = Some e
    /\ trace w' = trace w ++ construction_trace env options e w.
Proof.
  intros H Hr. destruct r as [err|[]].
  2:{ apply constructor_success in H
        as (e & v & Hb & _ & _ & _ & _ & Htr & _).
      eauto. }
  unfold constructor in H.
  do 4 fstep H Hr.
  apply bind_inl in H as [H | (w1 & a & Hs & H)].
  { apply resolve_inl in H as ->. project. congruence. }
  apply resolve_bound in Hs as (m & -> & Hbound). cbv beta in H.
  apply bind_inl in H as [H | (w1 & a0 & Hs & H)].
  { rewrite resolve_config_run in H. discriminate H. }
  rewrite resolve_config_run, flags_fragment in Hs.
  injection Hs as <- <-. cbv beta in H.
  do 7 fstep H Hr.
  match type of H with
  | setup env ?W = _ => remember W as w0 eqn:Hw0
  end.
  assert (Hw : ready (this w0) = false) by (rewrite Hw0; reflexivity).
  apply (setup_ready env w0 w' _ H Hw) in Hr as (e & Hm & Htr).
  assert (Hmedia : media (this w0) = m) by (rewrite Hw0; reflexivity).
  rewrite Hm in Hmedia. subst m.
  destruct (before_setup_facts env options e w w0 Hw0)
    as (_ & Hcfg & Hnodes & _ & Htrace & _).
  rewrite (element_ext e w0 w Hnodes), (container_for_ext e w0 w Hnodes),
    Hcfg, Htrace in Htr.
  exists e. split; [by apply Hbound|].
  unfold construction_trace. rewrite Htr, <- !app_assoc. reflexivity.
Qed.

(** On the demo page, with an environment in which triggering the [ready]
    event throws, [new Plyr] throws and leaves a ready instance. *)
Lemma ready_only_when_wired_witness :
  let env := Demo.env is_ready_event in
  let run := constructor env (TSelector "#player") None Demo.page in
  run.2 = inl (Thrown (EvTriggerEvent (MElement 1) "ready"))
  /\ exists e,
       bound_element env (TSelector "#player") = Some e
       /\ trace run.1 =
          trace Demo.page ++ construction_trace env None e Demo.page.
Proof.
  intros env run. split; [vm_compute; reflexivity|].
  apply (ready_only_when_wired env (TSelector "#player") None Demo.page
           run.1 run.2).
  - apply surjective_pairing.
  - vm_compute. reflexivity.
Defined.
